(** * TeamSpeak3.js: the query facade, its constructor and its caches

    A shallow embedding of [src/TeamSpeak3.js].  JavaScript values are an
    inductive type, objects used as argument records are association lists
    in property insertion order, the configuration object and the wrapper
    caches are finite maps, and the transport ([transport/TS3Query], not part
    of this file's source) is an interface. *)

From Stdlib Require Import ZArith Ascii String Lia.
From stdpp Require Import base strings list gmap pretty.

Set Warnings "-register-all".

Local Open Scope string_scope.
Local Open Scope Z_scope.

(** ** JavaScript values *)

(** A number is an integral double, [NaN] or an infinity.  Doubles with a
    fraction do not occur in the code modelled here. *)
Inductive number :=
| NaN
| Int (z : Z)
| Inf (negative : bool).

(** [VNum] carries a number; [VFun] is a function or class object, given by
    its source text; [VBuf] is a Buffer, given by its bytes. *)
Inductive value :=
| VUndefined
| VNull
| VBool (b : bool)
| VNum (n : number)
| VStr (s : string)
| VArr (elems : list value)
| VObj (props : list (string * value))
| VFun (src : string)
| VBuf (bytes : string).

Abbreviation VInt z := (VNum (Int z)).

(** What a [throw] or a rejected promise carries: the three kinds of error
    the code raises itself, or any other value. *)
Inductive js_error :=
| ReferenceError (ident : string)
| TypeError (msg : string)
| Error (msg : value)
| Thrown (v : value).

(** A completion: a statement list either runs to its return value or
    throws. *)
Inductive completion (A : Type) :=
| Normal (a : A)
| Throw (e : js_error).
Arguments Normal {A} a.
Arguments Throw {A} e.

#[global] Instance completion_ret : MRet completion := @Normal.

#[global] Instance completion_bind : MBind completion := fun A B k c =>
  match c with
  | Normal a => k a
  | Throw e => Throw e
  end.

(** The state a promise ends in; [Pending] is a promise nobody settles. *)
Inductive outcome :=
| Resolved (res : value)
| Rejected (err : js_error)
| Pending.

(** ** Objects as ordered property lists *)

Definition record := list (string * value).

Fixpoint obj_get (k : string) (o : record) : option value :=
  match o with
  | [] => None
  | (k', v) :: o' => if String.eqb k k' then Some v else obj_get k o'
  end.

(** [k in o] *)
Definition obj_has (k : string) (o : record) : bool :=
  match obj_get k o with Some _ => true | None => false end.

(** [o[k] = v]: an existing property keeps its place, a new one goes last.
    (The keys of the records built here are never array indices, which
    JavaScript would enumerate first.) *)
Fixpoint obj_set (k : string) (v : value) (o : record) : record :=
  match o with
  | [] => [(k, v)]
  | (k', v') :: o' =>
      if String.eqb k k' then (k, v) :: o' else (k', v') :: obj_set k v o'
  end.

(** An object literal [{k1: v1, ..., kn: vn}]. *)
Definition obj_lit (fields : list (string * value)) : record :=
  fold_left (fun o kv => obj_set kv.1 kv.2 o) fields [].

(** [v.k] for reading: [undefined] for a missing property, a TypeError on
    [undefined] and [null]. *)
Definition get_prop (v : value) (k : string) : completion value :=
  match v with
  | VUndefined => Throw (TypeError ("Cannot read property '" ++ k ++ "' of undefined"))
  | VNull => Throw (TypeError ("Cannot read property '" ++ k ++ "' of null"))
  | VObj o => Normal (default VUndefined (obj_get k o))
  | VBuf b =>
      Normal (if String.eqb k "byteLength"
              then VInt (Z.of_nat (String.length b)) else VUndefined)
  | VStr s =>
      Normal (if String.eqb k "length"
              then VInt (Z.of_nat (String.length s)) else VUndefined)
  | VArr l =>
      Normal (if String.eqb k "length"
              then VInt (Z.of_nat (List.length l)) else VUndefined)
  | _ => Normal VUndefined
  end.

(** ** Conversions *)

Definition number_truthy (n : number) : bool :=
  match n with
  | NaN => false
  | Int z => negb (z =? 0)
  | Inf _ => true
  end.

(** [Boolean(v)], also the test of [if], [?:] and [||]. *)
Definition toBoolean (v : value) : bool :=
  match v with
  | VUndefined | VNull => false
  | VBool b => b
  | VNum n => number_truthy n
  | VStr s => negb (String.eqb s "")
  | VArr _ | VObj _ | VFun _ | VBuf _ => true
  end.

(** A parameter with a default value: the default is taken when the argument
    is [undefined], that is also when it was not passed. *)
Definition param_default (d : value) (arg : value) : value :=
  match arg with
  | VUndefined => d
  | _ => arg
  end.

(** [v === false] *)
Definition is_false (v : value) : bool :=
  match v with
  | VBool false => true
  | _ => false
  end.

(** [typeof v] *)
Definition typeof (v : value) : string :=
  match v with
  | VUndefined => "undefined"
  | VNull => "object"
  | VBool _ => "boolean"
  | VNum _ => "number"
  | VStr _ => "string"
  | VArr _ | VObj _ | VBuf _ => "object"
  | VFun _ => "function"
  end.

(** The double next to an integer: itself up to [2^53], beyond that rounded
    to 53 significant bits, ties to even, and an infinity from [2^1024] on. *)
Definition to_double (z : Z) : number :=
  let a := Z.abs z in
  if a <? 2 ^ 53 then Int z
  else
    let e := Z.log2 a - 52 in
    let q := a / 2 ^ e in
    let r := a mod 2 ^ e in
    let half := 2 ^ (e - 1) in
    let q' := if (half <? r) || ((r =? half) && Z.odd q) then q + 1 else q in
    let m := q' * 2 ^ e in
    if 2 ^ 1024 <=? m then Inf (z <? 0) else Int (Z.sgn z * m).

(** Two integers that round to the same finite double. *)
Definition same_double (a b : Z) : bool :=
  match to_double a, to_double b with
  | Int x, Int y => x =? y
  | _, _ => false
  end.

(** The decimal digits JavaScript prints for an integral double [a] from
    [2^53] on, as an integer: the multiple of a power of ten with the fewest
    significant digits that still reads back as [a]; of two such multiples
    the one nearer to [a], and at equal distance the one with an even last
    digit.  [scale] starts at the power of ten of the first digit of [a] and
    drops by one digit each round. *)
Fixpoint shortest_digits (fuel : nat) (a scale : Z) : Z :=
  match fuel with
  | O => a
  | S fuel' =>
      let lo := a / scale * scale in
      let hi := lo + scale in
      match same_double a lo, same_double a hi with
      | true, true =>
          if a - lo <? hi - a then lo
          else if hi - a <? a - lo then hi
          else if Z.even (a / scale) then lo else hi
      | true, false => lo
      | false, true => hi
      | false, false => shortest_digits fuel' a (scale / 10)
      end
  end.

Fixpoint strip_zeros (fuel : nat) (z : Z) : Z :=
  match fuel with
  | O => z
  | S fuel' => if z mod 10 =? 0 then strip_zeros fuel' (z / 10) else z
  end.

(** The digits as JavaScript writes them: in full up to 21 digits, beyond
    that the significant digits with a point after the first one and the
    exponent. *)
Definition print_digits (z : Z) : string :=
  let d := pretty z in
  let n := String.length d in
  if (n <=? 21)%nat then d
  else
    match pretty (strip_zeros n z) with
    | String c rest =>
        String c (if decide (rest = "") then "" else "." ++ rest)
        ++ "e+" ++ pretty (Z.of_nat n - 1)
    | EmptyString => d
    end.

(** [String(n)]: an integer below [2^53] in absolute value prints as its
    decimal expansion; a larger one stands for the double next to it and
    prints with the fewest digits that read back as that double. *)
Definition number_to_string (n : number) : string :=
  match n with
  | NaN => "NaN"
  | Int z =>
      let a := Z.abs z in
      if a <? 2 ^ 53 then pretty z
      else
        let len := String.length (pretty a) in
        (if z <? 0 then "-" else "")
        ++ print_digits (shortest_digits len a (10 ^ (Z.of_nat len - 1)))
  | Inf false => "Infinity"
  | Inf true => "-Infinity"
  end.

Definition join (sep : string) (l : list string) : string :=
  match l with
  | [] => ""
  | s :: l' => fold_left (fun acc t => acc ++ sep ++ t) l' s
  end.

(** [String(v)].  An array prints its elements separated by commas, with
    [undefined] and [null] as the empty string. *)
Fixpoint toString (v : value) : string :=
  match v with
  | VUndefined => "undefined"
  | VNull => "null"
  | VBool true => "true"
  | VBool false => "false"
  | VNum n => number_to_string n
  | VStr s => s
  | VArr l =>
      join "," (map (fun e => match e with
                              | VUndefined | VNull => ""
                              | _ => toString e
                              end) l)
  | VObj _ => "[object Object]"
  | VFun src => src
  | VBuf b => b
  end.

(** ** Identifier resolution *)

(** A scope frame binds names to values; an identifier is looked up from the
    innermost frame outwards and last in the global object.  An identifier
    bound nowhere raises a ReferenceError. *)
Definition scope := list (string * value).

Fixpoint resolve (chain : list scope) (global : gmap string value) (x : string)
  : completion value :=
  match chain with
  | [] =>
      match global !! x with
      | Some v => Normal v
      | None => Throw (ReferenceError x)
      end
  | frame :: outer =>
      match obj_get x frame with
      | Some v => Normal v
      | None => resolve outer global x
      end
  end.

(** What Node gives a module: the wrapper's five parameters and the global
    object. *)
Record node_env := {
  node_exports : value;
  node_require : string -> value;
  node_module : value;
  node_filename : string;
  node_dirname : string;
  node_global : gmap string value
}.

(** The bindings of the file itself: lines 9 to 17 and the class. *)
Definition module_scope (env : node_env) : scope :=
  [ ("exports", node_exports env);
    ("require", VFun "require");
    ("module", node_module env);
    ("__filename", VStr (node_filename env));
    ("__dirname", VStr (node_dirname env));
    ("TS3Query", node_require env (node_dirname env ++ "/transport/TS3Query"));
    ("FileTransfer", node_require env (node_dirname env ++ "/transport/FileTransfer"));
    ("TeamSpeakClient", node_require env (node_dirname env ++ "/property/Client"));
    ("TeamSpeakChannel", node_require env (node_dirname env ++ "/property/Channel"));
    ("TeamSpeakServer", node_require env (node_dirname env ++ "/property/Server"));
    ("TeamSpeakServerGroup", node_require env (node_dirname env ++ "/property/ServerGroup"));
    ("TeamSpeakChannelGroup", node_require env (node_dirname env ++ "/property/ChannelGroup"));
    ("EventEmitter", node_require env "events");
    ("TeamSpeak3", VFun "class TeamSpeak3 extends EventEmitter") ].

(** The frame of a method call: its formal parameters bound to the actual
    arguments (missing ones to [undefined]) and [arguments]. *)
Definition method_scope (formals : list string) (actuals : list value) : scope :=
  ("arguments", VArr actuals)
    :: imap (fun i x => (x, nth i actuals VUndefined)) formals.

(** ** The transport *)

(** [transport/TS3Query] and [transport/FileTransfer] are used through these
    two operations; each answers with the state its promise ends in. *)
Class Transport := {
  ts3_execute : list value -> outcome;
  ft_upload : value -> value -> value -> value -> outcome
}.

(** The [arguments] object of a call: a length and indexed elements. *)
Record arguments_object := {
  args_length : nat;
  args_get : nat -> value
}.

Definition mk_arguments (actuals : list value) : arguments_object :=
  {| args_length := List.length actuals;
     args_get := fun i => nth i actuals VUndefined |}.

(** [...a]: the elements of an array-like, from index 0 to its length. *)
Definition spread (a : arguments_object) : list value :=
  map (args_get a) (seq 0 (args_length a)).

Section Facade.
Context `{T : Transport}.

(** [execute() { return this._ts3.execute(...arguments) }] *)
Definition execute (actuals : list value) : outcome :=
  ts3_execute (spread (mk_arguments actuals)).

Definition registerEvent (event id : value) : outcome :=
  let id := param_default (VBool false) id in
  let arg := obj_lit [("event", event)] in
  let arg := if negb (is_false id) then obj_set "id" id arg else arg in
  execute [VStr "servernotifyregister"; VObj arg].


Definition serverGroupAddPerm (sgid perm value permsid skip negate : value)
  : outcome :=
  let permsid := param_default (VBool false) permsid in
  let skip := param_default (VInt 0) skip in
  let negate := param_default (VInt 0) negate in
  let prop := obj_lit [("sgid", sgid)] in
  let prop := obj_set (if toBoolean permsid then "permsid" else "permid") perm prop in
  let prop := obj_set "permvalue" value prop in
  let prop := obj_set "permskip" skip prop in
  let prop := obj_set "permnegated" negate prop in
  execute [VStr "servergroupaddperm"; VObj prop].

(** [messageUpdate(id, read)]: the callee [this.execute] is a property
    reference; the arguments are evaluated left to right before the call,
    the two property values of the object literal in their order. *)
Definition messageUpdate (env : node_env) (id read : value) : completion outcome :=
  let chain := [method_scope ["id"; "read"] [id; read]; module_scope env] in
  msgid ← resolve chain (node_global env) "id";
  flag ← resolve chain (node_global env) "flag";
  mret (execute [VStr "messageupdateflag";
                 VObj (obj_lit [("msgid", msgid); ("flag", flag)])]).


Definition complainDel (tdbid fdbid : value) : outcome :=
  let fdbid := param_default (VBool false) fdbid in
  let cmd := if is_false fdbid then "complaindelall" else "complaindel" in
  let prop := obj_lit [("tcldbid", tdbid)] in
  let prop := if is_false fdbid then obj_set "fcldbid" fdbid prop else prop in
  execute [VStr cmd; VObj prop].

(** [a || b] *)
Definition or_else (a b : value) : value := if toBoolean a then a else b.

Definition banAdd (ip name uid time reason : value) : outcome :=
  let props := obj_lit [] in
  let props := if toBoolean ip then obj_set "ip" ip props else props in
  let props := if toBoolean name then obj_set "name" name props else props in
  let props := if toBoolean uid then obj_set "uid" uid props else props in
  let props := if toBoolean time then obj_set "time" time props else props in
  let props := obj_set "banreason" (or_else reason (VStr "")) props in
  execute [VStr "banadd"; VObj props].

End Facade.

(** ** [parseInt] *)

(** Strings are sequences of code units below 256; these are the white space
    characters among them (tab, line feed, vertical tab, form feed, carriage
    return, space, no-break space). *)
Definition is_white (c : ascii) : bool :=
  let n := nat_of_ascii c in
  bool_decide (n ∈ [9; 10; 11; 12; 13; 32; 160]%nat).

Fixpoint trim_start (s : string) : string :=
  match s with
  | String c s' => if is_white c then trim_start s' else s
  | EmptyString => s
  end.

(** The value of a digit in radix up to 36. *)
Definition digit_value (c : ascii) : option Z :=
  let n := Z.of_nat (nat_of_ascii c) in
  if (48 <=? n) && (n <=? 57) then Some (n - 48)
  else if (97 <=? n) && (n <=? 122) then Some (n - 97 + 10)
  else if (65 <=? n) && (n <=? 90) then Some (n - 65 + 10)
  else None.

(** The longest prefix of digits of radix [R], read as an integer; [acc] is
    [None] until a digit has been read. *)
Fixpoint parse_digits (R : Z) (s : string) (acc : option Z) : option Z :=
  match s with
  | EmptyString => acc
  | String c s' =>
      match digit_value c with
      | Some d =>
          if d <? R then parse_digits R s' (Some (R * default 0 acc + d)) else acc
      | None => acc
      end
  end.

(** [parseInt(v)] without a radix: the argument as a string, leading white
    space and one sign dropped, radix 16 after [0x] and 10 otherwise, then
    the longest prefix of digits; [NaN] when there is none. *)
Definition parseInt (v : value) : number :=
  let s := trim_start (toString v) in
  let '(neg, s) :=
    match s with
    | String "-" s' => (true, s')
    | String "+" s' => (false, s')
    | _ => (false, s)
    end in
  let '(R, s) :=
    match s with
    | String "0" (String "x" s') | String "0" (String "X" s') => (16, s')
    | _ => (10, s)
    end in
  match parse_digits R s None with
  | None => NaN
  | Some m => to_double (if neg then - m else m)
  end.

(** [n || d] on numbers *)
Definition num_or (n : number) (d : number) : number :=
  if number_truthy n then n else d.

(** ** The instance and its constructor *)

(** [this._config] *)
Record config := {
  protocol : value;
  host : value;
  queryport : number;
  serverport : value;
  username : value;
  password : value;
  nickname : value;
  antispam : bool;
  antispamtimer : number;
  keepalive : bool
}.

(** A cache of wrapper objects by id.  The constructor makes each an object
    [{}]; [_cacheCleanUp] replaces four of them by arrays [[]]. *)
Record cache := {
  cache_is_array : bool;
  cache_entries : gmap string value
}.

Definition empty_object : cache := {| cache_is_array := false; cache_entries := ∅ |}.
Definition empty_array : cache := {| cache_is_array := true; cache_entries := ∅ |}.

Record instance := {
  _config : config;
  _clients : cache;
  _channels : cache;
  _servergroups : cache;
  _channelgroups : cache;
  _servers : cache
}.

(** What the constructor does with the transport object [this._ts3]. *)
Inductive transport_call :=
| NewTS3Query (host : value) (queryport : number) (protocol username password : value)
| KeepAlive
| AntiSpam (interval : number)
| On (event : string).

(** [c.k] on the configuration object: [undefined] when the key is missing. *)
Definition cfg (c : gmap string value) (k : string) : value :=
  default VUndefined (c !! k).

Definition falsy_to_false (n : number) : value :=
  if number_truthy n then VNum n else VBool false.

(** [constructor(config = {})]: [None] is a call without argument. *)
Definition constructor (arg : option (gmap string value))
  : instance * list transport_call :=
  let c := default ∅ arg in
  let conf := {|
    protocol := or_else (cfg c "protocol") (VStr "raw");
    host := or_else (cfg c "host") (VStr "127.0.0.1");
    queryport := num_or (parseInt (cfg c "queryport")) (Int 10011);
    serverport := falsy_to_false (parseInt (cfg c "serverport"));
    username := or_else (cfg c "username") (VBool false);
    password := or_else (cfg c "password") (VBool false);
    nickname := or_else (cfg c "nickname") (VBool false);
    antispam := toBoolean (cfg c "antispam");
    antispamtimer := num_or (parseInt (cfg c "antispamtimer")) (Int 350);
    keepalive := toBoolean (cfg c "keepalive")
  |} in
  let this := {|
    _config := conf;
    _clients := empty_object;
    _channels := empty_object;
    _servergroups := empty_object;
    _channelgroups := empty_object;
    _servers := empty_object
  |} in
  (this,
   ([NewTS3Query (host conf) (queryport conf) (protocol conf) (username conf) (password conf)]
   ++ (if keepalive conf then [KeepAlive] else [])
   ++ (if antispam conf then [AntiSpam (antispamtimer conf)] else [])
   ++ map On ["cliententerview"; "clientleftview"; "serveredited"; "channeledited";
              "channelmoved"; "channeldeleted"; "channelcreated"; "clientmoved";
              "textmessage"; "connect"; "close"; "error"])%list).

(** ** Cache clean-up and file upload *)

(** The pieces of a string between occurrences of a separator character. *)
Fixpoint split_on (sep : ascii) (s : string) (piece : string) : list string :=
  match s with
  | EmptyString => [piece]
  | String c s' =>
      if Ascii.eqb c sep then piece :: split_on sep s' ""
      else split_on sep s' (piece ++ String c "")
  end.

(** [v.split("/")] *)
Definition call_split (v : value) : completion value :=
  match v with
  | VUndefined => Throw (TypeError "Cannot read property 'split' of undefined")
  | VNull => Throw (TypeError "Cannot read property 'split' of null")
  | VStr s => Normal (VArr (map VStr (split_on "/" s "")))
  | _ => Throw (TypeError "split is not a function")
  end.

(** [v.pop()]: the last element (or [undefined]) and the array left. *)
Definition call_pop (v : value) : completion (value * value) :=
  match v with
  | VUndefined => Throw (TypeError "Cannot read property 'pop' of undefined")
  | VNull => Throw (TypeError "Cannot read property 'pop' of null")
  | VArr l => Normal (List.last l VUndefined, VArr (removelast l))
  | _ => Throw (TypeError "pop is not a function")
  end.

(** [v === 0] *)
Definition is_zero (v : value) : bool :=
  match v with
  | VNum (Int 0) => true
  | _ => false
  end.

(** What reaches the network during a call. *)
Inductive effect :=
| EExecute (actuals : list value)
| EUpload (host port ftkey data : value).

Section Stateful.
Context `{T : Transport}.

(** [_cacheCleanUp(promise)]: the four caches are replaced in the
    fulfilment handler of [promise]; a rejection is passed on. *)
Definition _cacheCleanUp (this : instance) (promise : outcome) : instance * outcome :=
  match promise with
  | Resolved res =>
      ({| _config := _config this;
          _clients := empty_array;
          _channels := empty_array;
          _servergroups := empty_array;
          _channelgroups := empty_array;
          _servers := _servers this |},
       Resolved res)
  | Rejected e => (this, Rejected e)
  | Pending => (this, Pending)
  end.

Definition logout (this : instance) : instance * outcome :=
  _cacheCleanUp this (execute [VStr "logout"]).

Definition useByPort (this : instance) (port : value) : instance * outcome :=
  _cacheCleanUp this (execute [VStr "use"; VObj (obj_lit [("port", port)])]).

Definition useBySid (this : instance) (sid : value) : instance * outcome :=
  _cacheCleanUp this (execute [VStr "use"; VArr [sid]]).

(** The arguments [ftInitUpload(transfer)] hands to [execute]; [rnd] is
    the value of [Math.floor(Math.random() * 10000)]. *)
Definition ftInitUpload_call (rnd : Z) (transfer : record) : list value :=
  let transfer := if negb (obj_has "clientftfid" transfer)
                  then obj_set "clientftfid" (VInt rnd) transfer else transfer in
  let transfer := if negb (obj_has "cid" transfer)
                  then obj_set "cid" (VInt 0) transfer else transfer in
  let transfer := if negb (obj_has "resume" transfer)
                  then obj_set "resume" (VInt 0) transfer else transfer in
  let transfer := if negb (obj_has "overwrite" transfer)
                  then obj_set "overwrite" (VInt 1) transfer else transfer in
  [VStr "ftinitupload"; VObj transfer].

Definition ftInitUpload (rnd : Z) (transfer : record) : outcome :=
  execute (ftInitUpload_call rnd transfer).

(** The fulfilment handler of [uploadFile]: [res => { ... }].  When it
    throws, the promise of [then] is rejected and nothing settles the
    outer promise. *)
Definition uploadFile_then (this : instance) (data res : value)
  : outcome * list effect :=
  match
    size ← get_prop res "size";
    if is_zero size
    then msg ← get_prop res "msg"; mret (Rejected (Error msg), [])
    else
      port ← get_prop res "port";
      ftkey ← get_prop res "ftkey";
      mret (ft_upload (host (_config this)) port ftkey data,
            [EUpload (host (_config this)) port ftkey data])
  with
  | Normal r => r
  | Throw _ => (Pending, [])
  end.

(** The executor of [uploadFile], an arrow function inside the method.
    [var name] is hoisted to the top of the arrow function, where it is
    [undefined] until its assignment in the second statement; the first
    statement reads it. *)
Definition uploadFile_executor (env : node_env) (this : instance) (rnd : Z)
    (path data cid cpw : value) : completion (outcome * list effect) :=
  let chain := [ [("name", VUndefined)];
                 method_scope ["path"; "data"; "cid"; "cpw"] [path; data; cid; cpw];
                 module_scope env ] in
  name ← resolve chain (node_global env) "name";
  path ← call_split name;
  popped ← call_pop path;
  let name := VStr ("/" ++ toString popped.1) in
  let path := popped.2 in
  let data := if String.eqb (typeof data) "string"
              then VBuf (toString data) else data in
  size ← get_prop data "byteLength";
  let transfer := obj_lit [("path", path); ("name", name); ("cid", cid);
                           ("cpw", cpw); ("size", size)] in
  mret
    match ftInitUpload rnd transfer with
    | Resolved res =>
        let '(o, effs) := uploadFile_then this data res in
        (o, EExecute (ftInitUpload_call rnd transfer) :: effs)
    | Rejected _ | Pending => (Pending, [EExecute (ftInitUpload_call rnd transfer)])
    end.

(** [new Promise(executor)]: an executor that throws rejects the promise. *)
Definition uploadFile (env : node_env) (this : instance) (rnd : Z)
    (path data cid cpw : value) : outcome * list effect :=
  match uploadFile_executor env this rnd path data cid cpw with
  | Normal r => r
  | Throw e => (Rejected e, [])
  end.

End Stateful.

(** ** The command queue of the transport *)

Module CommandQueue.
Local Open Scope list_scope.

Record Command := {
  name : string;
  arguments : record;
  options : list string
}.

Record StatusLine := {
  code : Z;
  message : string
}.

(** A row of a ResultRecord: field name to raw string value. *)
Definition row := list (string * string).

Record NotificationEvent := {
  event_name : string;
  payload : row
}.

(** A PendingCommand; [in_flight] is the mark of a command that has been
    written to the socket and awaits its status line. *)
Record PendingCommand := {
  command : Command;
  handle : nat;
  submitted_at : nat;
  in_flight : bool
}.

(** How a completion handle ends. *)
Inductive completion_result :=
| Success (rows : list row) (st : StatusLine)
| CommandError (st : StatusLine)
| ConnectionClosed.

(** Modelled from the spec: the Command Queue of section 4.2
    ([transport/TS3Query] is not among the sources).  The queue is a FIFO
    of PendingCommands; [socket] is what has been written, [completions]
    what the callers have observed, oldest first, [notified] what the Event
    Router has handed to subscribers. *)
Record state := {
  queue : list PendingCommand;
  rows : list row;
  socket : list Command;
  completions : list (PendingCommand * completion_result);
  notified : list NotificationEvent;
  next_handle : nat
}.

Definition init : state :=
  {| queue := []; rows := []; socket := []; completions := [];
     notified := []; next_handle := 0 |}.

Definition mark_in_flight (pc : PendingCommand) : PendingCommand :=
  {| command := command pc; handle := handle pc;
     submitted_at := submitted_at pc; in_flight := true |}.

(** Modelled from the spec: submit.  "If no command is in flight, write the
    new command to the socket immediately and mark it in flight; otherwise
    append to the FIFO tail." *)
Definition submit (c : Command) (now : nat) (s : state) : state :=
  let pc := {| command := c; handle := next_handle s;
               submitted_at := now; in_flight := false |} in
  if existsb in_flight (queue s)
  then {| queue := queue s ++ [pc]; rows := rows s; socket := socket s;
          completions := completions s; notified := notified s;
          next_handle := S (next_handle s) |}
  else {| queue := queue s ++ [mark_in_flight pc]; rows := [];
          socket := socket s ++ [c];
          completions := completions s; notified := notified s;
          next_handle := S (next_handle s) |}.

(** Modelled from the spec: a line that is neither a notification nor a
    status line "is accumulated as a ResultRecord row for the current
    in-flight command". *)
Definition onRow (r : row) (s : state) : state :=
  {| queue := queue s; rows := rows s ++ [r]; socket := socket s;
     completions := completions s; notified := notified s;
     next_handle := next_handle s |}.

(** Modelled from the spec: onStatusLine "completes the head-of-queue
    PendingCommand using all ResultRecord rows accumulated since it was put
    in flight, removes it, and if the queue is non-empty, writes the next
    command and marks it in flight"; code 0 is success, any other code a
    CommandError.  A status line that finds the queue empty completes
    nothing. *)
Definition onStatusLine (st : StatusLine) (s : state) : state :=
  match queue s with
  | [] => s
  | pc :: rest =>
      let res := if code st =? 0 then Success (rows s) st else CommandError st in
      let done := completions s ++ [(pc, res)] in
      match rest with
      | [] =>
          {| queue := []; rows := []; socket := socket s;
             completions := done; notified := notified s;
             next_handle := next_handle s |}
      | next :: waiting =>
          {| queue := mark_in_flight next :: waiting; rows := [];
             socket := socket s ++ [command next];
             completions := done; notified := notified s;
             next_handle := next_handle s |}
      end
  end.

(** Modelled from the spec: a NotificationEvent is dispatched to the
    subscribers; it "never completes a PendingCommand and never consumes
    queue order". *)
Definition onNotification (n : NotificationEvent) (s : state) : state :=
  {| queue := queue s; rows := rows s; socket := socket s;
     completions := completions s; notified := notified s ++ [n];
     next_handle := next_handle s |}.

(** Modelled from the spec: onTeardown "fails every PendingCommand (in
    flight and queued) with a ConnectionClosed error, in FIFO order, then
    clears the queue". *)
Definition onTeardown (s : state) : state :=
  {| queue := []; rows := [];  socket := socket s;
     completions := completions s ++ map (fun pc => (pc, ConnectionClosed)) (queue s);
     notified := notified s; next_handle := next_handle s |}.

(** What can happen to the queue: a caller submits, or the Event Router
    hands over a decoded line, or the connection goes down. *)
Inductive event :=
| Submit (c : Command) (now : nat)
| Row (r : row)
| Status (st : StatusLine)
| Notification (n : NotificationEvent)
| Teardown.

Definition step (s : state) (e : event) : state :=
  match e with
  | Submit c now => submit c now s
  | Row r => onRow r s
  | Status st => onStatusLine st s
  | Notification n => onNotification n s
  | Teardown => onTeardown s
  end.

Definition run (evs : list event) : state := fold_left step evs init.

(** The commands of a trace in the order they were submitted. *)
Definition submitted (evs : list event) : list Command :=
  omap (fun e => match e with Submit c _ => Some c | _ => None end) evs.

(** The commands whose completion has been observed, oldest first. *)
Definition completed (s : state) : list PendingCommand := map fst (completions s).

Abbreviation flying := (fun pc : PendingCommand => in_flight pc = true).

(** The queued commands that are in flight. *)
Definition in_flight_now (s : state) : list PendingCommand :=
  filter flying (queue s).

(** The queue is empty, or its head is in flight and nothing behind it is. *)
Definition queue_shape (q : list PendingCommand) : Prop :=
  match q with
  | [] => True
  | pc :: waiting => in_flight pc = true /\ Forall (fun p => in_flight p = false) waiting
  end.

(** What every reachable state satisfies, [cs] being the commands submitted
    so far: the observed completions followed by the queue are the
    submitted commands in their order, handles count the submissions, and
    the socket has seen exactly the commands marked in flight. *)
Record invariant (cs : list Command) (s : state) : Prop := {
  inv_shape : queue_shape (queue s);
  inv_order : map command (completed s ++ queue s) = cs;
  inv_handles : map handle (completed s ++ queue s) = seq 0 (next_handle s);
  inv_socket : map command (filter flying (completed s ++ queue s)) = socket s
}.

(** [q] has no command. *)
Definition is_empty (q : list PendingCommand) : bool :=
  match q with [] => true | _ :: _ => false end.

End CommandQueue.

(** ** Observing what a method hands to the transport *)

(** A transport that answers every command with the arguments it was given
    and never finishes an upload. *)
Definition echo_transport : Transport :=
  {| ts3_execute := fun actuals => Resolved (VArr actuals);
     ft_upload := fun _ _ _ _ => Pending |}.

(** A Node process with nothing added to its global object. *)
Definition bare_env : node_env :=
  {| node_exports := VObj [];
     node_require := fun path => VFun path;
     node_module := VObj [("exports", VObj [])];
     node_filename := "/lib/TeamSpeak3.js";
     node_dirname := "/lib";
     node_global := ∅ |}.



(** Modelled from the spec: the characters the Line Codec escapes, "backslash,
    space, pipe, slash, semicolon, and control characters". *)
Definition reserved (c : ascii) : bool :=
  let n := nat_of_ascii c in
  (n <? 32)%nat || bool_decide (n ∈ [32; 47; 59; 92; 124]%nat).

Fixpoint plain (s : string) : bool :=
  match s with
  | EmptyString => true
  | String c s' => negb (reserved c) && plain s'
  end.

Definition wire_field (kv : string * value) : option string :=
  match kv.2 with
  | VStr _ | VNum _ =>
      if plain kv.1 && plain (toString kv.2)
      then Some (kv.1 ++ "=" ++ toString kv.2) else None
  | _ => None
  end.

(** Modelled from the spec: the line the Line Codec encodes a command to
    ([transport/Command] is not among the sources), without its terminator
    and only for a command whose name, keys and values are strings or numbers
    free of reserved characters, so that nothing is escaped: "one command per
    line, fields separated by spaces", each field [key=value]. *)
Definition wire_line (actuals : list value) : option string :=
  match actuals with
  | [VStr cmd; VObj props] =>
      if plain cmd
      then fields ← mapM wire_field props; Some (join " " (cmd :: fields))
      else None
  | _ => None
  end.

(** The line for the command that reached [echo_transport]. *)
Definition sent_line (o : outcome) : option string :=
  match o with
  | Resolved (VArr actuals) => wire_line actuals
  | _ => None
  end.

(** The intervals the constructor hands to the antispam gate. *)
Definition gate_intervals (calls : list transport_call) : list number :=
  omap (fun call => match call with AntiSpam n => Some n | _ => None end) calls.

(** A decimal numeral beyond the range of doubles: 1 followed by 309
    zeros. *)
Fixpoint zeros (n : nat) : string :=
  match n with
  | O => ""
  | S n' => String "0" (zeros n')
  end.

Definition overflowing_timer : string := String "1" (zeros 309).

(** [{antispam: true, antispamtimer: "1000...0"}] *)
Definition overflowing_config : gmap string value :=
  {["antispam" := VBool true; "antispamtimer" := VStr overflowing_timer]}.

(** The four caches are empty and the servers cache is the one of [this]. *)
Definition cleaned (this this' : instance) : Prop :=
  cache_entries (_clients this') = ∅
  /\ cache_entries (_channels this') = ∅
  /\ cache_entries (_servergroups this') = ∅
  /\ cache_entries (_channelgroups this') = ∅
  /\ _servers this' = _servers this.

(** A transport whose server refuses every command. *)
Definition refusing_transport : Transport :=
  {| ts3_execute := fun _ => Rejected (Error (VStr "invalid serverID"));
     ft_upload := fun _ _ _ _ => Pending |}.

(** An instance with one entry in each cache. *)
Definition filled_instance : instance :=
  let one (k : string) := {| cache_is_array := false;
                             cache_entries := {[k := VObj [("id", VStr k)]]} |} in
  {| _config := (constructor None).1.(_config);
     _clients := one "1";
     _channels := one "2";
     _servergroups := one "6";
     _channelgroups := one "5";
     _servers := one "1" |}.

(** * More of the facade *)

(** ** Numbers that need not be integral *)

(** The result of a conversion to number: a double, as the rational it is.
    [ToNumber] of a string and [parseFloat] are taken as given (their reading
    of decimal fractions and exponents and their rounding are not
    modelled). *)
Inductive double :=
| DNaN
| DInf (negative : bool)
| DFin (num : Z) (den : positive).

Class Builtins := {
  str_to_number : string -> double;
  parseFloat : value -> double
}.

Definition number_to_double (n : number) : double :=
  match n with
  | NaN => DNaN
  | Int z => DFin z 1
  | Inf b => DInf b
  end.

(** [x == y] on numbers: [NaN] equals nothing. *)
Definition double_eq (x y : double) : bool :=
  match x, y with
  | DFin n d, DFin n' d' => n * Z.pos d' =? n' * Z.pos d
  | DInf b, DInf b' => Bool.eqb b b'
  | _, _ => false
  end.

(** [ToUint32]: the fraction is dropped, the rest taken modulo [2^32]; [NaN]
    and the infinities give 0. *)
Definition to_uint32 (x : double) : Z :=
  match x with
  | DFin n d => Z.quot n (Z.pos d) mod 2 ^ 32
  | _ => 0
  end.

Section Numeric.
Context `{B : Builtins}.

(** [ToNumber(v)]; an object is first turned into its string. *)
Definition to_number (v : value) : double :=
  match v with
  | VUndefined => DNaN
  | VNull => DFin 0 1
  | VBool b => DFin (if b then 1 else 0) 1
  | VNum n => number_to_double n
  | VStr s => str_to_number s
  | VArr _ | VObj _ | VFun _ | VBuf _ => str_to_number (toString v)
  end.

(** [v < 0] *)
Definition lt_zero (v : value) : bool :=
  match to_number v with
  | DFin n _ => n <? 0
  | DInf negative => negative
  | DNaN => false
  end.

End Numeric.

(** ** Promise chains *)

(** [p.then(f)] for a handler [f] that returns a promise or throws. *)
Definition then_ (p : outcome) (f : value -> completion outcome) : outcome :=
  match p with
  | Resolved v =>
      match f v with
      | Normal o => o
      | Throw e => Rejected e
      end
  | Rejected e => Rejected e
  | Pending => Pending
  end.

(** [v === null] *)
Definition is_null (v : value) : bool :=
  match v with VNull => true | _ => false end.

(** [Array.isArray(v)] *)
Definition is_array (v : value) : bool :=
  match v with VArr _ => true | _ => false end.

(** [toArray(input)] *)
Definition toArray (input : value) : outcome :=
  if String.eqb (typeof input) "undefined" || is_null input then Resolved (VArr [])
  else if negb (is_array input) then Resolved (VArr [input])
  else Resolved input.

Section PermLists.
Context `{T : Transport}.

Definition serverGroupPermList (sgid permsid : value) : outcome :=
  let permsid := param_default (VBool false) permsid in
  then_ (execute [VStr "servergrouppermlist"; VObj (obj_lit [("sgid", sgid)]);
                  VArr [if toBoolean permsid then VStr "-permsid" else VNull]])
        (fun res => Normal (toArray res)).

Definition channelPermList (cid permsid : value) : outcome :=
  let permsid := param_default (VBool false) permsid in
  then_ (execute [VStr "channelpermlist"; VObj (obj_lit [("cid", cid)]);
                  if toBoolean permsid then VArr [VStr "-permsid"] else VNull])
        (fun res => Normal (toArray res)).

Definition clientPermList (dbid permsid : value) : outcome :=
  let permsid := param_default (VBool false) permsid in
  then_ (execute [VStr "clientpermlist"; VObj (obj_lit [("cldbid", dbid)]);
                  VArr [if toBoolean permsid then VStr "-permsid" else VNull]])
        (fun res => Normal (toArray res)).

Definition channelGroupPermList (cgid permsid : value) : outcome :=
  let permsid := param_default (VBool false) permsid in
  then_ (execute [VStr "channelgrouppermlist"; VObj (obj_lit [("cgid", cgid)]);
                  VArr [if toBoolean permsid then VStr "-permsid" else VNull]])
        (fun res => Normal (toArray res)).

End PermLists.

(** The array [toArray] resolves with: empty for no response, the given
    array, or the one response in an array. *)
Definition array_of (input : value) : list value :=
  match input with
  | VUndefined | VNull => []
  | VArr rows => rows
  | _ => [input]
  end.

(** The four permission list methods called with [id] and [permsid]: the
    arguments each hands to [execute], and its promise. *)
Definition perm_lists `{T : Transport} (id permsid : value)
  : list (list value * outcome) :=
  let with_names := toBoolean (param_default (VBool false) permsid) in
  [ ([VStr "servergrouppermlist"; VObj [("sgid", id)];
      VArr [if with_names then VStr "-permsid" else VNull]],
     serverGroupPermList id permsid);
    ([VStr "channelpermlist"; VObj [("cid", id)];
      if with_names then VArr [VStr "-permsid"] else VNull],
     channelPermList id permsid);
    ([VStr "clientpermlist"; VObj [("cldbid", id)];
      VArr [if with_names then VStr "-permsid" else VNull]],
     clientPermList id permsid);
    ([VStr "channelgrouppermlist"; VObj [("cgid", id)];
      VArr [if with_names then VStr "-permsid" else VNull]],
     channelGroupPermList id permsid) ].

(** ** [getIconName] *)

(** [s === "i_icon_id"] for the value of a property. *)
Definition is_icon_id (v : value) : bool :=
  match v with
  | VStr s => String.eqb s "i_icon_id"
  | _ => false
  end.

Section IconName.
Context `{B : Builtins}.

(** ["icon_" + ((perm.permvalue < 0) ? perm.permvalue >>> 0 : perm.permvalue)] *)
Definition icon_name (permvalue : value) : string :=
  "icon_" ++ (if lt_zero permvalue
              then toString (VInt (to_uint32 (to_number permvalue)))
              else toString permvalue).

(** [perms.some(perm => { ... })]: the elements up to the first for which the
    callback returns [true]; the name it fulfils with, if any.  Reading
    [permsid] from [undefined] or [null] throws. *)
Fixpoint find_icon (perms : list value) : completion (option string) :=
  match perms with
  | [] => Normal None
  | perm :: rest =>
      permsid ← get_prop perm "permsid";
      if is_icon_id permsid
      then permvalue ← get_prop perm "permvalue"; mret (Some (icon_name permvalue))
      else find_icon rest
  end.

(** [getIconName(permlist)].  The handler given to [permlist.then] is the
    only one: when [permlist] rejects, or the handler throws (as it does when
    [perms] has no method [some]), nothing settles the promise returned.  The
    bytes of a Buffer are numbers, none of which is an icon permission.  (An
    object that brings a [some] of its own is not modelled.) *)
Definition getIconName (permlist : outcome) : outcome :=
  match permlist with
  | Resolved (VArr perms) =>
      match find_icon perms with
      | Normal (Some name) => Resolved (VStr name)
      | Normal None => Rejected (Error (VStr "no icon found"))
      | Throw _ => Pending
      end
  | Resolved (VBuf _) => Rejected (Error (VStr "no icon found"))
  | Resolved _ => Pending
  | Rejected _ => Pending
  | Pending => Pending
  end.

End IconName.

(** ** The wrapper caches *)

(** A class of [property/] (Client, Channel, Server, ServerGroup,
    ChannelGroup; none of them among the sources), as far as the facade uses
    it: [class_new l] is [new Class(this, l)], [class_updateCache w l] is the
    wrapper [w] after [w.updateCache(l)], [class_getCache w] is
    [w.getCache()]. *)
Record wrapper_class := {
  class_new : value -> value;
  class_updateCache : value -> value -> value;
  class_getCache : value -> value
}.

(** [cache[k] = w] *)
Definition cache_put (k : string) (w : value) (c : cache) : cache :=
  {| cache_is_array := cache_is_array c;
     cache_entries := <[k := w]> (cache_entries c) |}.

(** [delete cache[k]] *)
Definition cache_delete (k : string) (c : cache) : cache :=
  {| cache_is_array := cache_is_array c;
     cache_entries := delete k (cache_entries c) |}.

(** [Object.keys(cache)] *)
Definition cache_keys (c : cache) : list string :=
  (map_to_list (cache_entries c)).*1.

(** [remainder.splice(remainder.indexOf(k), 1)] for a [k] that occurs. *)
Fixpoint remove_first (k : string) (remainder : list string) : list string :=
  match remainder with
  | [] => []
  | r :: rest => if String.eqb k r then rest else r :: remove_first k rest
  end.

(** [list.forEach(l => { ... })] of [_handleCache]: the cache and the
    remainder after the rows, or the cache as far as it got and what was
    thrown. *)
Fixpoint handle_rows (C : wrapper_class) (key : string) (c : cache)
    (remainder : list string) (rows : list value) : cache * completion (list string) :=
  match rows with
  | [] => (c, Normal remainder)
  | l :: rows' =>
      match get_prop l key with
      | Throw e => (c, Throw e)
      | Normal id =>
          let k := toString id in
          if bool_decide (k ∈ remainder)
          then
            match cache_entries c !! k with
            | Some w =>
                handle_rows C key (cache_put k (class_updateCache C w l) c)
                  (remove_first k remainder) rows'
            | None =>
                (c, Throw (TypeError "Cannot read property 'updateCache' of undefined"))
            end
          else handle_rows C key (cache_put k (class_new C l) c) remainder rows'
      end
  end.

(** [if (!Array.isArray(list)) var list = [list]] *)
Definition rows_of (given : value) : list value :=
  match given with
  | VArr rows => rows
  | _ => [given]
  end.

(** [_handleCache(cache, list, key, Class)]: the cache afterwards and the
    promise.  ([key] is a field name, as in all five callers, not an
    index.) *)
Definition _handleCache (C : wrapper_class) (c : cache) (given : value) (key : string)
  : cache * outcome :=
  let rows := rows_of given in
  match handle_rows C key c (cache_keys c) rows with
  | (c', Normal remainder) =>
      (foldl (fun c r => cache_delete r c) c' remainder, Resolved (VArr rows))
  | (c', Throw e) => (c', Rejected e)
  end.

(** The id a readable row is filed under. *)
Definition row_key (key : string) (l : value) : string :=
  match get_prop l key with
  | Normal id => toString id
  | Throw _ => ""
  end.

(** A row whose fields can be read: anything but [undefined] and [null]. *)
Definition readable (l : value) : Prop := l <> VUndefined /\ l <> VNull.

(** A permission row that is not the icon of its owner. *)
Definition not_icon (perm : value) : Prop :=
  exists permsid, get_prop perm "permsid" = Normal permsid /\ is_icon_id permsid = false.

(** ** Events of the transport *)

(** What the instance emits to its own listeners. *)
Inductive emitted :=
| Emit (event : string) (payload : value)
| EmitError (e : js_error).

Definition with_clients (this : instance) (clients : cache) : instance :=
  {| _config := _config this;
     _clients := clients;
     _channels := _channels this;
     _servergroups := _servergroups this;
     _channelgroups := _channelgroups this;
     _servers := _servers this |}.

Section Events.
Context (TeamSpeakClient : wrapper_class).

(** [_evcliententerview()]: [raw] is [arguments[0]].  The key of
    [this._clients[raw.clid]] is [raw.clid] as a string. *)
Definition _evcliententerview (this : instance) (raw : value)
  : completion (instance * list emitted) :=
  clid ← get_prop raw "clid";
  let clients := cache_put (toString clid) (class_new TeamSpeakClient raw) (_clients this) in
  ctid ← get_prop raw "ctid";
  mret (with_clients this clients,
        [Emit "clientconnect"
           (VObj (obj_lit [("client", default VUndefined
                                        (cache_entries clients !! toString clid));
                           ("cid", ctid)]))]).

(** [_evclientleftview()] *)
Definition _evclientleftview (this : instance) (raw : value)
  : completion (instance * list emitted) :=
  clid ← get_prop raw "clid";
  let client :=
    match cache_entries (_clients this) !! toString clid with
    | Some w => class_getCache TeamSpeakClient w
    | None => VObj (obj_lit [("clid", clid)])
    end in
  mret (with_clients this (cache_delete (toString clid) (_clients this)),
        [Emit "clientdisconnect" (VObj (obj_lit [("client", client); ("event", raw)]))]).

End Events.

(** ** File transfers *)



(** The arguments [ftInitDownload(transfer)] hands to [execute]. *)
Definition ftInitDownload_call (rnd : Z) (transfer : record) : list value :=
  let transfer := if negb (obj_has "clientftfid" transfer)
                  then obj_set "clientftfid" (VInt rnd) transfer else transfer in
  let transfer := if negb (obj_has "seekpos" transfer)
                  then obj_set "seekpos" (VInt 0) transfer else transfer in
  let transfer := if negb (obj_has "cpw" transfer)
                  then obj_set "cpw" (VStr "") transfer else transfer in
  let transfer := if negb (obj_has "cid" transfer)
                  then obj_set "cid" (VInt 0) transfer else transfer in
  let transfer := if negb (obj_has "path" transfer)
                  then obj_set "path" (VStr "/") transfer else transfer in
  [VStr "ftinitdownload"; VObj transfer].

(** The record of a call [cmd, record]. *)
Definition call_record (actuals : list value) : record :=
  match actuals with
  | [_; VObj r] => r
  | _ => []
  end.

(** [k] is bound in the first record, else as in the second. *)
Definition overlay (k : string) (given defaults : record) : option value :=
  match obj_get k given with
  | Some v => Some v
  | None => obj_get k defaults
  end.

Section Download.
Context `{T : Transport} `{D : Downloader}.

Definition ftInitDownload (rnd : Z) (transfer : record) : outcome :=
  execute (ftInitDownload_call rnd transfer).



End Download.

(** ** The connect handler *)

(** [v === "raw"] *)
Definition is_raw (v : value) : bool :=
  match v with
  | VStr s => String.eqb s "raw"
  | _ => false
  end.

(** [Promise.all(ps)]: resolved when all are, rejected as soon as one is
    (the commands of a connection complete in the order they were sent, so
    that the first rejection is that of the first rejected command). *)
Fixpoint promise_all (ps : list outcome) : outcome :=
  match ps with
  | [] => Resolved (VArr [])
  | Resolved v :: ps' =>
      match promise_all ps' with
      | Resolved (VArr vs) => Resolved (VArr (v :: vs))
      | o => o
      end
  | Rejected e :: _ => Rejected e
  | Pending :: ps' =>
      match promise_all ps' with
      | Rejected e => Rejected e
      | _ => Pending
      end
  end.

Section Connect.
Context `{T : Transport}.

Definition login (username password : value) : outcome :=
  execute [VStr "login"; VArr [username; password]].

Definition clientUpdate (properties : value) : outcome :=
  execute [VStr "clientupdate"; properties].

(** The listener of the transport's "connect": the instance afterwards,
    the commands sent, in their order, and what is emitted. *)
Definition on_connect (this : instance)
  : instance * list (list value) * option emitted :=
  let conf := _config this in
  let do_login := String.eqb (typeof (username conf)) "string" && is_raw (protocol conf) in
  let do_use := String.eqb (typeof (serverport conf)) "number" in
  let do_nick := String.eqb (typeof (nickname conf)) "string" in
  let used := if do_use then useByPort this (serverport conf) else (this, Pending) in
  let exec :=
    ((if do_login then [login (username conf) (password conf)] else [])
     ++ (if do_use then [used.2] else [])
     ++ (if do_nick
         then [clientUpdate (VObj (obj_lit [("client_nickname", nickname conf)]))]
         else []))%list in
  let sent :=
    ((if do_login then [[VStr "login"; VArr [username conf; password conf]]] else [])
     ++ (if do_use then [[VStr "use"; VObj (obj_lit [("port", serverport conf)])]] else [])
     ++ (if do_nick
         then [[VStr "clientupdate"; VObj (obj_lit [("client_nickname", nickname conf)])]]
         else []))%list in
  (used.1, sent,
   match promise_all exec with
   | Resolved _ => Some (Emit "ready" VUndefined)
   | Rejected e => Some (EmitError e)
   | Pending => None
   end).

End Connect.

(** ** [_filter] and the cached lists *)

(** [x === y] on primitive values, as [indexOf] compares.  Two objects are
    the same object or not; the rows come from the transport and the filter
    from the caller, so none of a row's is one of the filter's. *)
Definition strict_equal (x y : value) : bool :=
  match x, y with
  | VUndefined, VUndefined | VNull, VNull => true
  | VBool a, VBool b => Bool.eqb a b
  | VNum (Int a), VNum (Int b) => a =? b
  | VNum (Inf a), VNum (Inf b) => Bool.eqb a b
  | VStr a, VStr b => String.eqb a b
  | _, _ => false
  end.

(** [k in a] for a row.  A primitive value makes [in] throw; a row that is an
    array, a Buffer or a function has none of the fields a filter names
    (their own index and length properties are not modelled). *)
Definition has_field (a : value) (k : string) : completion bool :=
  match a with
  | VObj o => Normal (obj_has k o)
  | VArr _ | VBuf _ | VFun _ => Normal false
  | _ => Throw (TypeError "Cannot use 'in' operator to search for a key in a primitive")
  end.

(** [a[k]] for a row that has the field. *)
Definition field (a : value) (k : string) : value :=
  match a with
  | VObj o => default VUndefined (obj_get k o)
  | _ => VUndefined
  end.

Section Filter.
Context `{B : Builtins}.

(** [s == v] for a string [s]. *)
Definition loose_equal_string (s : string) (v : value) : bool :=
  match v with
  | VStr t => String.eqb s t
  | VNum n => double_eq (str_to_number s) (number_to_double n)
  | VBool b => double_eq (str_to_number s) (DFin (if b then 1 else 0) 1)
  | VUndefined | VNull => false
  | VArr _ | VObj _ | VFun _ | VBuf _ => String.eqb s (toString v)
  end.

(** The body of the loop once [k in a] holds, for [a[k]] and [filter[k]]:
    what the callback returns, or [None] when no case of the switch applies
    and the loop goes on.  (No value modelled here is a RegExp; a field that
    is an object has no [match].) *)
Definition filter_case (ak fk : value) : completion (option bool) :=
  if is_array fk then Normal (Some (existsb (fun x => strict_equal x ak) (rows_of fk)))
  else
    match ak with
    | VNum n => Normal (Some (double_eq (number_to_double n) (parseFloat fk)))
    | VStr s => Normal (Some (loose_equal_string s fk))
    | VNull => Throw (TypeError "Cannot read property 'match' of null")
    | VArr _ | VObj _ | VBuf _ => Throw (TypeError "a[k].match is not a function")
    | VUndefined | VBool _ | VFun _ => Normal None
    end.

(** The callback of [array.filter]: [for (var k in filter) { ... }], falling
    off the end with [undefined]. *)
Fixpoint filter_row (a : value) (filter : record) (keys : list string) : completion bool :=
  match keys with
  | [] => Normal false
  | k :: keys' =>
      has ← has_field a k;
      if negb has then Normal false
      else
        r ← filter_case (field a k) (default VUndefined (obj_get k filter));
        match r with
        | Some b => Normal b
        | None => filter_row a filter keys'
        end
  end.

Fixpoint filter_rows (rows : list value) (filter : record) : completion (list value) :=
  match rows with
  | [] => Normal []
  | a :: rows' =>
      filter_row a filter (filter.*1) ≫= fun keep : bool =>
      filter_rows rows' filter ≫= fun rest =>
      Normal (if keep then a :: rest else rest)
  end.

(** [_filter(array, filter)] for a filter object. *)
Definition _filter (array : value) (filter : record) : outcome :=
  let rows := rows_of array in
  if (List.length filter =? 0)%nat then Resolved (VArr rows)
  else
    match filter_rows rows filter with
    | Normal kept => Resolved (VArr kept)
    | Throw e => Rejected e
    end.

End Filter.

(** The five classes of [property/]. *)
Record property_classes := {
  TeamSpeakClient : wrapper_class;
  TeamSpeakChannel : wrapper_class;
  TeamSpeakServer : wrapper_class;
  TeamSpeakServerGroup : wrapper_class;
  TeamSpeakChannelGroup : wrapper_class
}.

Definition with_channels (this : instance) (channels : cache) : instance :=
  {| _config := _config this;
     _clients := _clients this;
     _channels := channels;
     _servergroups := _servergroups this;
     _channelgroups := _channelgroups this;
     _servers := _servers this |}.

Definition with_servergroups (this : instance) (servergroups : cache) : instance :=
  {| _config := _config this;
     _clients := _clients this;
     _channels := _channels this;
     _servergroups := servergroups;
     _channelgroups := _channelgroups this;
     _servers := _servers this |}.

Definition with_channelgroups (this : instance) (channelgroups : cache) : instance :=
  {| _config := _config this;
     _clients := _clients this;
     _channels := _channels this;
     _servergroups := _servergroups this;
     _channelgroups := channelgroups;
     _servers := _servers this |}.

Definition with_servers (this : instance) (servers : cache) : instance :=
  {| _config := _config this;
     _clients := _clients this;
     _channels := _channels this;
     _servergroups := _servergroups this;
     _channelgroups := _channelgroups this;
     _servers := servers |}.

Section Lists.
Context `{T : Transport} `{B : Builtins} (P : property_classes).

(** The chain the five list methods share: execute, [_handleCache] on the
    cache of the method, [_filter], and last each row replaced by the cached
    wrapper of its id.  [filter] is [None] for a call without filter, which
    takes the default [{}]. *)
Definition cached_list (C : wrapper_class) (c : cache) (actuals : list value)
    (key : string) (filter : option record) : cache * outcome :=
  match execute actuals with
  | Resolved answer =>
      let handled := _handleCache C c answer key in
      (handled.1,
       then_ (then_ handled.2 (fun rows => Normal (_filter rows (default [] filter))))
         (fun rows =>
            ids ← mapM (fun r => get_prop r key) (rows_of rows);
            Normal (Resolved
                      (VArr ((fun id => default VUndefined
                                          (cache_entries handled.1 !! toString id))
                               <$> ids)))))
  | Rejected e => (c, Rejected e)
  | Pending => (c, Pending)
  end.

Definition serverList (this : instance) (filter : option record) : instance * outcome :=
  let r := cached_list (TeamSpeakServer P) (_servers this)
             [VStr "serverlist"; VArr [VStr "-uid"; VStr "-all"]]
             "virtualserver_id" filter in
  (with_servers this r.1, r.2).

Definition channelGroupList (this : instance) (filter : option record)
  : instance * outcome :=
  let r := cached_list (TeamSpeakChannelGroup P) (_channelgroups this)
             [VStr "channelgrouplist"] "cgid" filter in
  (with_channelgroups this r.1, r.2).

Definition serverGroupList (this : instance) (filter : option record)
  : instance * outcome :=
  let r := cached_list (TeamSpeakServerGroup P) (_servergroups this)
             [VStr "servergrouplist"] "sgid" filter in
  (with_servergroups this r.1, r.2).

Definition channelList (this : instance) (filter : option record) : instance * outcome :=
  let r := cached_list (TeamSpeakChannel P) (_channels this)
             [VStr "channellist";
              VArr [VStr "-topic"; VStr "-flags"; VStr "-voice"; VStr "-limits";
                    VStr "-icon"; VStr "-secondsempty"]]
             "cid" filter in
  (with_channels this r.1, r.2).

Definition clientList (this : instance) (filter : option record) : instance * outcome :=
  let r := cached_list (TeamSpeakClient P) (_clients this)
             [VStr "clientlist";
              VArr [VStr "-uid"; VStr "-away"; VStr "-voice"; VStr "-times";
                    VStr "-groups"; VStr "-info"; VStr "-icon"; VStr "-country"]]
             "clid" filter in
  (with_clients this r.1, r.2).

End Lists.

(** A row that is an object whose field [k], if it has one, is a number or a
    string. *)
Definition plain_field (k : string) (a : value) : Prop :=
  exists o, a = VObj o
            /\ match obj_get k o with
               | None | Some (VNum _) | Some (VStr _) => True
               | Some _ => False
               end.

(** The field [k] of a row is missing or a string. *)
Definition string_field (k : string) (o : record) : Prop :=
  match obj_get k o with
  | None | Some (VStr _) => True
  | Some _ => False
  end.

(** [a[k]] is the string [s]. *)
Definition field_is (k s : string) (o : record) : bool :=
  match obj_get k o with
  | Some (VStr t) => String.eqb t s
  | _ => false
  end.

(** [a[k]] is one of [vs]. *)
Definition field_among (k : string) (vs : list value) (o : record) : bool :=
  match obj_get k o with
  | Some ak => existsb (fun x => strict_equal x ak) vs
  | None => false
  end.

(** ** Getters *)

(** [list.then(found => fulfill(found[0])).catch(reject)] inside
    [new Promise]. *)
Definition first_of (p : outcome) : outcome :=
  match p with
  | Resolved (VArr ws) => Resolved (nth 0 ws VUndefined)
  | Resolved VUndefined => Rejected (TypeError "Cannot read property '0' of undefined")
  | Resolved VNull => Rejected (TypeError "Cannot read property '0' of null")
  | Resolved (VObj o) => Resolved (default VUndefined (obj_get "0" o))
  | Resolved (VStr (String c _)) => Resolved (VStr (String c ""))
  | Resolved (VBuf (String c _)) => Resolved (VInt (Z.of_nat (nat_of_ascii c)))
  | Resolved _ => Resolved VUndefined
  | Rejected e => Rejected e
  | Pending => Pending
  end.

Section Getters.
Context `{T : Transport} `{B : Builtins} (P : property_classes).

Definition getClientByUID (this : instance) (uid : value) : instance * outcome :=
  let r := clientList P this (Some (obj_lit [("client_unique_identifier", uid)])) in
  (r.1, first_of r.2).

Definition getClientByName (this : instance) (name : value) : instance * outcome :=
  let r := clientList P this (Some (obj_lit [("client_nickname", name)])) in
  (r.1, first_of r.2).

Definition getChannelByName (this : instance) (name : value) : instance * outcome :=
  let r := channelList P this (Some (obj_lit [("channel_name", name)])) in
  (r.1, first_of r.2).

End Getters.

(** ** Edit events *)

(** [Object.keys(args).filter(k => k.indexOf(p) === 0).forEach(k =>
    prop.modified[k] = args[k])] into the empty [modified].  The keys of a
    value that is not a plain object are indices at most, none of which
    begins with a prefix used here. *)
Definition modified_props (p : string) (args : value) : record :=
  match args with
  | VObj o =>
      fold_left (fun m k => obj_set k (default VUndefined (obj_get k o)) m)
        (List.filter (String.prefix p) (o.*1)) []
  | _ => []
  end.

Section EditEvents.
Context `{T : Transport} `{B : Builtins} (P : property_classes).

Definition getClientByID (this : instance) (clid : value) : instance * outcome :=
  let r := clientList P this (Some (obj_lit [("clid", clid)])) in
  (r.1, first_of r.2).

Definition getChannelByID (this : instance) (cid : value) : instance * outcome :=
  let r := channelList P this (Some (obj_lit [("cid", cid)])) in
  (r.1, first_of r.2).

(** [_evserveredited()]: [args] is [arguments[0]]. *)
Definition _evserveredited (this : instance) (args : value)
  : completion (instance * list emitted) :=
  invokerid ← get_prop args "invokerid";
  let found := getClientByID this invokerid in
  mret (found.1,
        match found.2 with
        | Resolved client =>
            [Emit "serveredit"
               (VObj (obj_lit [("invoker", client);
                               ("modified", VObj (modified_props "virtualserver_" args))]))]
        | Rejected e => [EmitError e]
        | Pending => []
        end).

(** [_evchanneledited()] and [_evchannelcreated()], which differ in the name
    of the event they emit. *)
Definition channel_event (event : string) (this : instance) (args : value)
  : completion (instance * list emitted) :=
  invokerid ← get_prop args "invokerid";
  let invoker := getClientByID this invokerid in
  cid ← get_prop args "cid";
  let channel := getChannelByID invoker.1 cid in
  mret (channel.1,
        match promise_all [invoker.2; channel.2] with
        | Resolved (VArr [res0; res1]) =>
            [Emit event
               (VObj (obj_lit [("invoker", res0); ("channel", res1);
                               ("modified", VObj (modified_props "channel_" args))]))]
        | Resolved _ => []
        | Rejected e => [EmitError e]
        | Pending => []
        end).

Definition _evchanneledited := channel_event "channeledit".
Definition _evchannelcreated := channel_event "channelcreate".

End EditEvents.

(** The [modified] record of an emitted edit event, if it is one. *)
Definition modified_of (ev : emitted) : option record :=
  match ev with
  | Emit _ (VObj payload) =>
      match obj_get "modified" payload with
      | Some (VObj m) => Some m
      | _ => None
      end
  | _ => None
  end.

(** A server that answers "clientlist" (and every other command) with two
    named clients. *)
Definition named_rows : list record :=
  [ [("clid", VInt 2); ("client_unique_identifier", VStr "uidA");
     ("client_nickname", VStr "anna")];
    [("clid", VInt 3); ("client_unique_identifier", VStr "uidB");
     ("client_nickname", VStr "bob")] ].

Definition named_rows_transport : Transport :=
  {| ts3_execute := fun _ => Resolved (VArr (VObj <$> named_rows));
     ft_upload := fun _ _ _ _ => Pending |}.

(** The five list methods on [this] with [filter]: the command each sends,
    the key of its rows, its cache afterwards and its promise. *)
Definition list_methods `{T : Transport} `{B : Builtins} (P : property_classes)
    (this : instance) (filter : option record)
  : list (list value * string * cache * outcome) :=
  [ ([VStr "serverlist"; VArr [VStr "-uid"; VStr "-all"]], "virtualserver_id",
     _servers (serverList P this filter).1, (serverList P this filter).2);
    ([VStr "channelgrouplist"], "cgid",
     _channelgroups (channelGroupList P this filter).1, (channelGroupList P this filter).2);
    ([VStr "servergrouplist"], "sgid",
     _servergroups (serverGroupList P this filter).1, (serverGroupList P this filter).2);
    ([VStr "channellist";
      VArr [VStr "-topic"; VStr "-flags"; VStr "-voice"; VStr "-limits";
            VStr "-icon"; VStr "-secondsempty"]], "cid",
     _channels (channelList P this filter).1, (channelList P this filter).2);
    ([VStr "clientlist";
      VArr [VStr "-uid"; VStr "-away"; VStr "-voice"; VStr "-times";
            VStr "-groups"; VStr "-info"; VStr "-icon"; VStr "-country"]], "clid",
     _clients (clientList P this filter).1, (clientList P this filter).2) ].

(** Conversions that read every string as [NaN]; enough where only numbers
    are converted. *)
Definition nan_builtins : Builtins :=
  {| str_to_number := fun _ => DNaN;
     parseFloat := fun _ => DNaN |}.



(** A string other than the empty one. *)
Definition is_nonempty_string (v : value) : bool :=
  match v with
  | VStr s => negb (String.eqb s "")
  | _ => false
  end.

(** A wrapper class that keeps the last row under [data] and counts its
    updates. *)
Definition counting_class : wrapper_class :=
  {| class_new := fun l => VObj [("data", l); ("updates", VInt 0)];
     class_updateCache := fun w l =>
       VObj [("data", l);
             ("updates", match w with
                         | VObj [(_, _); (_, VNum (Int n))] => VInt (n + 1)
                         | _ => VInt 1
                         end)];
     class_getCache := fun w =>
       match w with
       | VObj ((_, l) :: _) => l
       | _ => VUndefined
       end |}.

(** A cache with clients 1 and 2. *)
Definition two_clients : cache :=
  {| cache_is_array := false;
     cache_entries := {[ "1" := class_new counting_class (VObj [("clid", VInt 1)]);
                         "2" := class_new counting_class (VObj [("clid", VInt 2)]) ]} |}.

(** A server that answers every command with the rows of clients 2 and 3. *)
Definition two_rows_transport : Transport :=
  {| ts3_execute := fun _ => Resolved (VArr [VObj [("clid", VInt 2)]; VObj [("clid", VInt 3)]]);
     ft_upload := fun _ _ _ _ => Pending |}.

Definition counting_classes : property_classes :=
  {| TeamSpeakClient := counting_class;
     TeamSpeakChannel := counting_class;
     TeamSpeakServer := counting_class;
     TeamSpeakServerGroup := counting_class;
     TeamSpeakChannelGroup := counting_class |}.

(** * Properties *)

(** ** Conversions on examples *)

Example toString_array :
  toString (VArr [VInt 5; VNull; VStr "a"; VArr [VInt (-1); VInt 2]]) = "5,,a,-1,2".
Proof. vm_compute. reflexivity. Qed.

Example parseInt_examples :
  parseInt (VStr "  42px") = Int 42 /\ parseInt (VStr "-0x1F") = Int (-31) /\
  parseInt VUndefined = NaN /\ parseInt (VStr "") = NaN /\
  parseInt (VInt 500) = Int 500 /\ parseInt (VStr "0") = Int 0 /\
  parseInt (VStr "9007199254740993") = Int 9007199254740992 /\
  parseInt (VArr [VInt 7]) = Int 7 /\ parseInt (VBool true) = NaN.
Proof. vm_compute. repeat split. Qed.

Example banAdd_ip_only :
  banAdd (T := echo_transport) (VStr "10.0.0.1") VUndefined (VStr "") (VInt 0) VUndefined
  = Resolved (VArr [VStr "banadd";
                    VObj [("ip", VStr "10.0.0.1"); ("banreason", VStr "")]]).
Proof. reflexivity. Qed.

Example registerEvent_channel :
  registerEvent (T := echo_transport) (VStr "channel") (VInt 0)
  = Resolved (VArr [VStr "servernotifyregister";
                    VObj [("event", VStr "channel"); ("id", VInt 0)]]).
Proof. reflexivity. Qed.

(** ** The facade's [execute] *)

Lemma spread_arguments (actuals : list value) :
  spread (mk_arguments actuals) = actuals.
Proof.
  unfold spread, mk_arguments; simpl.
  apply (nth_ext _ _ VUndefined VUndefined).
  - now rewrite length_map, length_seq.
  - intros n Hn. rewrite length_map, length_seq in Hn.
    rewrite (nth_indep _ _ (nth (List.length actuals) actuals VUndefined)).
    + rewrite (map_nth (fun i => nth i actuals VUndefined)).
      now rewrite seq_nth.
    + now rewrite length_map, length_seq.
Qed.

(** C3: for every command name, argument record and flag list, the facade's
    [execute] returns what the transport's execute returns on the same three
    arguments in the same order; the same holds for any number of
    arguments. *)
Theorem execute_forwards_to_transport `{T : Transport} :
  (forall commandName argumentsRecord flagList : value,
     execute [commandName; argumentsRecord; flagList]
     = ts3_execute [commandName; argumentsRecord; flagList])
  /\ (forall actuals : list value, execute actuals = ts3_execute actuals).
Proof.
  split; intros; unfold execute; now rewrite spread_arguments.
Qed.

Lemma execute_eq `{T : Transport} (actuals : list value) :
  execute actuals = ts3_execute actuals.
Proof. unfold execute. now rewrite spread_arguments. Qed.

(** ** Argument records *)

(** C4: called with supplied [skip] and [negate], [serverGroupAddPerm]
    executes "servergroupaddperm" with exactly the five fields sgid, permid,
    permvalue, permskip and permnegated, in this order, bound to sgid, perm,
    value, skip and negate when permsid is false, and with permsid in the
    place of permid when permsid is true; for 6, 1, 25, 0, 0 the record is
    the spec's line "servergroupaddperm sgid=6 permid=1 permvalue=25
    permskip=0 permnegated=0". *)
Theorem serverGroupAddPerm_record `{T : Transport}
    (sgid perm value skip negate : value) :
  skip <> VUndefined -> negate <> VUndefined ->
  serverGroupAddPerm sgid perm value (VBool false) skip negate
  = ts3_execute [VStr "servergroupaddperm";
                 VObj [("sgid", sgid); ("permid", perm); ("permvalue", value);
                       ("permskip", skip); ("permnegated", negate)]]
  /\ serverGroupAddPerm sgid perm value (VBool true) skip negate
     = ts3_execute [VStr "servergroupaddperm";
                    VObj [("sgid", sgid); ("permsid", perm); ("permvalue", value);
                          ("permskip", skip); ("permnegated", negate)]]
  /\ sent_line (serverGroupAddPerm (T := echo_transport)
                  (VInt 6) (VInt 1) (VInt 25) (VBool false) (VInt 0) (VInt 0))
     = Some "servergroupaddperm sgid=6 permid=1 permvalue=25 permskip=0 permnegated=0".
Proof.
  intros Hskip Hnegate.
  unfold serverGroupAddPerm. rewrite !execute_eq.
  destruct skip; try congruence; destruct negate; try congruence;
    (split; [reflexivity | split; [reflexivity | vm_compute; reflexivity]]).
Qed.

Lemma serverGroupAddPerm_record_witness :
  VInt 0 <> VUndefined
  /\ serverGroupAddPerm (T := echo_transport)
       (VInt 6) (VInt 1) (VInt 25) (VBool false) (VInt 0) (VInt 0)
     = Resolved (VArr [VStr "servergroupaddperm";
                       VObj [("sgid", VInt 6); ("permid", VInt 1); ("permvalue", VInt 25);
                             ("permskip", VInt 0); ("permnegated", VInt 0)]]).
Proof.
  split; [discriminate |].
  apply (serverGroupAddPerm_record (T := echo_transport)
           (VInt 6) (VInt 1) (VInt 25) (VInt 0) (VInt 0)); discriminate.
Defined.

(** Without [skip] and [negate] the two flags are sent as 0. *)
Lemma serverGroupAddPerm_defaults `{T : Transport} (sgid perm value : value) :
  serverGroupAddPerm sgid perm value VUndefined VUndefined VUndefined
  = ts3_execute [VStr "servergroupaddperm";
                 VObj [("sgid", sgid); ("permid", perm); ("permvalue", value);
                       ("permskip", VInt 0); ("permnegated", VInt 0)]].
Proof. unfold serverGroupAddPerm. now rewrite execute_eq. Qed.

(** C9: for a supplied [fdbid] other than [false], [complainDel] executes
    "complaindel" with a record that holds tcldbid alone, without fcldbid;
    for [fdbid] false, and likewise when it is left out, it executes
    "complaindelall" with tcldbid and fcldbid bound to [false]: the guard
    that adds fcldbid fires exactly when [fdbid] is [false]. *)
Theorem complainDel_guard `{T : Transport} (tdbid fdbid : value) :
  fdbid <> VBool false -> fdbid <> VUndefined ->
  complainDel tdbid fdbid
  = ts3_execute [VStr "complaindel"; VObj [("tcldbid", tdbid)]]
  /\ complainDel tdbid (VBool false)
     = ts3_execute [VStr "complaindelall";
                    VObj [("tcldbid", tdbid); ("fcldbid", VBool false)]]
  /\ complainDel tdbid VUndefined = complainDel tdbid (VBool false).
Proof.
  intros Hfalse Hundef. unfold complainDel. rewrite !execute_eq.
  split; [| split; reflexivity].
  destruct fdbid as [| | [|] | | | | | |]; try congruence; reflexivity.
Qed.

Lemma complainDel_guard_witness :
  VInt 3 <> VBool false /\ VInt 3 <> VUndefined
  /\ complainDel (T := echo_transport) (VInt 7) (VInt 3)
     = Resolved (VArr [VStr "complaindel"; VObj [("tcldbid", VInt 7)]]).
Proof.
  split; [discriminate | split; [discriminate |]].
  apply (complainDel_guard (T := echo_transport) (VInt 7) (VInt 3)); discriminate.
Defined.

(** ** Unbound and uninitialised variables *)

Lemma module_scope_no_flag (env : node_env) :
  obj_get "flag" (module_scope env) = None.
Proof. reflexivity. Qed.

(** C2: [messageUpdate(id, read)] reads [flag], which its parameter list
    does not bind (nor does the file); with no global of that name, the call
    raises a ReferenceError for every [id] and [read], and the
    "messageupdateflag" command is not executed. *)
Theorem messageUpdate_unbound_flag `{T : Transport}
    (env : node_env) (id read : value) :
  node_global env !! "flag" = None ->
  obj_get "flag" (method_scope ["id"; "read"] [id; read]) = None
  /\ messageUpdate env id read = Throw (ReferenceError "flag").
Proof.
  intros Hglobal. split; [reflexivity |].
  unfold messageUpdate. cbn [mbind completion_bind resolve].
  change (obj_get "id" (method_scope ["id"; "read"] [id; read])) with (Some id).
  cbn [mbind completion_bind].
  change (obj_get "flag" (method_scope ["id"; "read"] [id; read])) with (@None value).
  rewrite module_scope_no_flag, Hglobal. reflexivity.
Qed.

Lemma messageUpdate_unbound_flag_witness :
  node_global bare_env !! "flag" = None
  /\ messageUpdate (T := echo_transport) bare_env (VInt 4) (VInt 1)
     = Throw (ReferenceError "flag").
Proof.
  split; [reflexivity |].
  apply (messageUpdate_unbound_flag (T := echo_transport) bare_env (VInt 4) (VInt 1)).
  reflexivity.
Defined.

(** C8: whatever [path], [data], [cid] and [cpw] are, [uploadFile] rejects
    with the TypeError of reading [split] from the still undefined [name];
    nothing is executed on the transport and no file transfer starts. *)
Theorem uploadFile_always_rejects `{T : Transport}
    (env : node_env) (this : instance) (rnd : Z) (path data cid cpw : value) :
  uploadFile env this rnd path data cid cpw
  = (Rejected (TypeError "Cannot read property 'split' of undefined"), []).
Proof. reflexivity. Qed.

(** ** The constructor *)

Lemma constructor_calls (arg : option (gmap string value)) :
  let c := default ∅ arg in
  (constructor arg).2
  = ([NewTS3Query (or_else (cfg c "host") (VStr "127.0.0.1"))
        (num_or (parseInt (cfg c "queryport")) (Int 10011))
        (or_else (cfg c "protocol") (VStr "raw"))
        (or_else (cfg c "username") (VBool false))
        (or_else (cfg c "password") (VBool false))]
     ++ (if toBoolean (cfg c "keepalive") then [KeepAlive] else [])
     ++ (if toBoolean (cfg c "antispam")
         then [AntiSpam (num_or (parseInt (cfg c "antispamtimer")) (Int 350))]
         else [])
     ++ map On ["cliententerview"; "clientleftview"; "serveredited"; "channeledited";
                "channelmoved"; "channeldeleted"; "channelcreated"; "clientmoved";
                "textmessage"; "connect"; "close"; "error"])%list.
Proof. reflexivity. Qed.

Lemma gate_intervals_constructor (arg : option (gmap string value)) :
  let c := default ∅ arg in
  gate_intervals (constructor arg).2
  = if toBoolean (cfg c "antispam")
    then [num_or (parseInt (cfg c "antispamtimer")) (Int 350)]
    else [].
Proof.
  cbv zeta. rewrite constructor_calls. cbv zeta.
  destruct (toBoolean (cfg (default ∅ arg) "keepalive")),
    (toBoolean (cfg (default ∅ arg) "antispam")); reflexivity.
Qed.

(** C5, as amended: constructed with antispam enabled, the client hands the
    antispam gate 350 when the configuration has no antispamtimer and when
    parseInt turns its antispamtimer into NaN or 0; it hands the gate n when
    parseInt turns the antispamtimer into a nonzero integer n, and more
    generally hands on whatever truthy number parseInt gives, which is
    Infinity for a numeral beyond the range of doubles. *)
Theorem antispam_interval (c : gmap string value) :
  toBoolean (cfg c "antispam") = true ->
  let calls := (constructor (Some c)).2 in
  (c !! "antispamtimer" = None -> gate_intervals calls = [Int 350])
  /\ (parseInt (cfg c "antispamtimer") = NaN \/ parseInt (cfg c "antispamtimer") = Int 0 ->
      gate_intervals calls = [Int 350])
  /\ (forall n : Z, n <> 0 -> parseInt (cfg c "antispamtimer") = Int n ->
      gate_intervals calls = [Int n])
  /\ (forall m : number, number_truthy m = true -> parseInt (cfg c "antispamtimer") = m ->
      gate_intervals calls = [m]).
Proof.
  intros Hon calls. subst calls.
  rewrite (gate_intervals_constructor (Some c)).
  change (default ∅ (Some c)) with c. rewrite Hon.
  repeat split.
  - intros Hnone. unfold cfg. rewrite Hnone. reflexivity.
  - intros [-> | ->]; reflexivity.
  - intros n Hn ->. unfold num_or, number_truthy.
    destruct (Z.eqb_spec n 0); [contradiction | reflexivity].
  - intros m Hm ->. unfold num_or. now rewrite Hm.
Qed.

Lemma antispam_interval_witness :
  toBoolean (cfg {["antispam" := VBool true; "antispamtimer" := VStr "500"]} "antispam") = true
  /\ gate_intervals
       (constructor (Some {["antispam" := VBool true; "antispamtimer" := VStr "500"]})).2
     = [Int 500].
Proof.
  assert (Hon : toBoolean (cfg {["antispam" := VBool true; "antispamtimer" := VStr "500"]}
                             "antispam") = true) by (vm_compute; reflexivity).
  split; [exact Hon |].
  destruct (antispam_interval _ Hon) as (_ & _ & Hn & _).
  apply Hn; [lia | vm_compute; reflexivity].
Defined.

(** C5, as stated, fails for an antispamtimer that is a numeral beyond the
    range of doubles: for 1 followed by 309 zeros parseInt gives Infinity,
    which is no integer, nonzero or not, and the gate is handed Infinity, not
    350. *)
Lemma antispam_interval_overflow :
  toBoolean (cfg overflowing_config "antispam") = true
  /\ parseInt (cfg overflowing_config "antispamtimer") = Inf false
  /\ (forall n : Z, parseInt (cfg overflowing_config "antispamtimer") <> Int n)
  /\ gate_intervals (constructor (Some overflowing_config)).2 = [Inf false]
  /\ gate_intervals (constructor (Some overflowing_config)).2 <> [Int 350].
Proof.
  assert (Hinf : parseInt (cfg overflowing_config "antispamtimer") = Inf false)
    by (vm_compute; reflexivity).
  assert (Hgate : gate_intervals (constructor (Some overflowing_config)).2 = [Inf false]).
  { rewrite (gate_intervals_constructor (Some overflowing_config)).
    change (default ∅ (Some overflowing_config)) with overflowing_config.
    rewrite Hinf. vm_compute. reflexivity. }
  split; [vm_compute; reflexivity |].
  split; [exact Hinf |].
  split; [intros n; rewrite Hinf; discriminate |].
  split; [exact Hgate | rewrite Hgate; discriminate].
Qed.

(** C6: the constructor calls the transport's keepAlive exactly when
    [config.keepalive] is truthy and its antiSpam exactly when
    [config.antispam] is truthy; with the empty configuration object, and
    with none at all, it calls neither. *)
Theorem constructor_activation (arg : option (gmap string value)) :
  let c := default ∅ arg in
  let calls := (constructor arg).2 in
  (KeepAlive ∈ calls <-> toBoolean (cfg c "keepalive") = true)
  /\ ((exists n, AntiSpam n ∈ calls) <-> toBoolean (cfg c "antispam") = true)
  /\ ((KeepAlive ∉ (constructor (Some ∅)).2)
      /\ forall n, AntiSpam n ∉ (constructor (Some ∅)).2)
  /\ ((KeepAlive ∉ (constructor None).2)
      /\ forall n, AntiSpam n ∉ (constructor None).2).
Proof.
  intros c calls. subst calls. rewrite constructor_calls. fold c.
  assert (Hon : forall (l : list string) (call : transport_call),
             call ∈ map On l -> exists e, call = On e).
  { intros l call Hin. apply list_elem_of_In, in_map_iff in Hin.
    destruct Hin as (e & <- & _). now exists e. }
  repeat split.
  - intros Hin. destruct (toBoolean (cfg c "keepalive")); [reflexivity |].
    rewrite !elem_of_app, list_elem_of_singleton in Hin.
    destruct Hin as [Hin | [Hin | [Hin | Hin]]]; try discriminate.
    + now apply elem_of_nil in Hin.
    + destruct (toBoolean (cfg c "antispam")).
      * apply list_elem_of_singleton in Hin. discriminate.
      * now apply elem_of_nil in Hin.
    + apply Hon in Hin as [e He]. discriminate.
  - intros ->. rewrite !elem_of_app. right; left. now apply list_elem_of_singleton.
  - intros [n Hin]. destruct (toBoolean (cfg c "antispam")); [reflexivity |].
    rewrite !elem_of_app, list_elem_of_singleton in Hin.
    destruct Hin as [Hin | [Hin | [Hin | Hin]]]; try discriminate.
    + destruct (toBoolean (cfg c "keepalive")).
      * apply list_elem_of_singleton in Hin. discriminate.
      * now apply elem_of_nil in Hin.
    + now apply elem_of_nil in Hin.
    + apply Hon in Hin as [e He]. discriminate.
  - intros ->. eexists. rewrite !elem_of_app. right; right; left.
    now apply list_elem_of_singleton.
  - vm_compute. intros Hin.
    repeat (apply elem_of_cons in Hin as [Hin | Hin]; [discriminate |]).
    now apply elem_of_nil in Hin.
  - intros n. vm_compute. intros Hin.
    repeat (apply elem_of_cons in Hin as [Hin | Hin]; [discriminate |]).
    now apply elem_of_nil in Hin.
  - vm_compute. intros Hin.
    repeat (apply elem_of_cons in Hin as [Hin | Hin]; [discriminate |]).
    now apply elem_of_nil in Hin.
  - intros n. vm_compute. intros Hin.
    repeat (apply elem_of_cons in Hin as [Hin | Hin]; [discriminate |]).
    now apply elem_of_nil in Hin.
Qed.

(** ** Optional fields *)



(** ** Cache clean-up *)

Lemma _cacheCleanUp_frame (this : instance) (promise : outcome) :
  (forall res, (_cacheCleanUp this promise).2 = Resolved res ->
               promise = Resolved res /\ cleaned this (_cacheCleanUp this promise).1)
  /\ (forall e, promise = Rejected e -> _cacheCleanUp this promise = (this, Rejected e)).
Proof.
  split.
  - intros res Hres. destruct promise; simpl in Hres; try discriminate.
    split; [exact Hres |]. repeat split.
  - intros e ->. reflexivity.
Qed.

(** C10: when the promise of [logout], [useByPort] or [useBySid] resolves,
    the command has resolved with the same result, the client, channel,
    server-group and channel-group caches are empty and the servers cache is
    unchanged; when the command on the transport rejects, the instance, and
    with it every cache, is as before and the rejection is passed on. *)
Theorem cache_cleanup_frame `{T : Transport} (this : instance) (port sid : value) :
  ((forall res, (logout this).2 = Resolved res ->
      ts3_execute [VStr "logout"] = Resolved res /\ cleaned this (logout this).1)
   /\ (forall e, ts3_execute [VStr "logout"] = Rejected e ->
      logout this = (this, Rejected e)))
  /\ ((forall res, (useByPort this port).2 = Resolved res ->
      ts3_execute [VStr "use"; VObj [("port", port)]] = Resolved res
      /\ cleaned this (useByPort this port).1)
   /\ (forall e, ts3_execute [VStr "use"; VObj [("port", port)]] = Rejected e ->
      useByPort this port = (this, Rejected e)))
  /\ ((forall res, (useBySid this sid).2 = Resolved res ->
      ts3_execute [VStr "use"; VArr [sid]] = Resolved res
      /\ cleaned this (useBySid this sid).1)
   /\ (forall e, ts3_execute [VStr "use"; VArr [sid]] = Rejected e ->
      useBySid this sid = (this, Rejected e))).
Proof.
  unfold logout, useByPort, useBySid. rewrite !execute_eq.
  repeat split; try apply _cacheCleanUp_frame; intros.
  all: try (match goal with
            | H : (_cacheCleanUp _ _).2 = Resolved _ |- _ =>
                apply _cacheCleanUp_frame in H; apply H
            end).
  all: match goal with H : _ = Rejected _ |- _ => rewrite H; reflexivity end.
Qed.

Lemma cache_cleanup_frame_witness :
  (logout (T := echo_transport) filled_instance).2 = Resolved (VArr [VStr "logout"])
  /\ cleaned filled_instance (logout (T := echo_transport) filled_instance).1
  /\ ts3_execute (Transport := refusing_transport) [VStr "use"; VArr [VInt 9]]
     = Rejected (Error (VStr "invalid serverID"))
  /\ useBySid (T := refusing_transport) filled_instance (VInt 9)
     = (filled_instance, Rejected (Error (VStr "invalid serverID"))).
Proof.
  assert (Hres : (logout (T := echo_transport) filled_instance).2
                 = Resolved (VArr [VStr "logout"])) by reflexivity.
  assert (Hrej : ts3_execute (Transport := refusing_transport) [VStr "use"; VArr [VInt 9]]
                 = Rejected (Error (VStr "invalid serverID"))) by reflexivity.
  split; [exact Hres |].
  split; [| split; [exact Hrej |]].
  - exact (proj2 (proj1 (proj1 (cache_cleanup_frame (T := echo_transport)
                                  filled_instance VUndefined VUndefined)) _ Hres)).
  - exact (proj2 (proj2 (proj2 (cache_cleanup_frame (T := refusing_transport)
                                  filled_instance VUndefined (VInt 9)))) _ Hrej).
Defined.

(** ** The command queue *)

Module CommandQueueProps.
Import CommandQueue.
Local Open Scope list_scope.
Local Open Scope nat_scope.

Lemma filter_waiting (q : list PendingCommand) :
  Forall (fun p => in_flight p = false) q -> filter flying q = [].
Proof.
  induction 1 as [| p q Hp _ IH]; [reflexivity |].
  rewrite filter_cons_False; [exact IH | congruence].
Qed.

Lemma shape_in_flight_some (q : list PendingCommand) :
  queue_shape q -> existsb in_flight q = negb (is_empty q).
Proof.
  destruct q as [| pc waiting]; [reflexivity |].
  intros [Hpc _]. simpl. now rewrite Hpc.
Qed.

Lemma shape_in_flight (q : list PendingCommand) :
  queue_shape q -> filter flying q = take 1 q.
Proof.
  destruct q as [| pc waiting]; [reflexivity |].
  intros [Hpc Hwaiting]. rewrite filter_cons_True by exact Hpc.
  now rewrite filter_waiting.
Qed.

Lemma invariant_init : invariant [] init.
Proof. split; simpl; auto. Qed.

Lemma invariant_submit cs s c now :
  invariant cs s -> invariant (cs ++ [c]) (submit c now s).
Proof.
  intros [Hshape Horder Hhandles Hsocket]. unfold submit.
  rewrite (shape_in_flight_some _ Hshape).
  unfold completed in *.
  destruct (queue s) as [| pc waiting] eqn:Hq; cbn [negb is_empty].
  - rewrite app_nil_r in *.
    split; unfold completed; cbn [queue completions socket next_handle].
    + split; [reflexivity | constructor].
    + now rewrite map_app, Horder.
    + now rewrite map_app, Hhandles, seq_S.
    + now rewrite filter_app, map_app, Hsocket.
  - destruct Hshape as [Hpc Hwaiting].
    split; unfold completed; cbn [queue completions socket next_handle].
    + split; [exact Hpc |]. apply Forall_app. split; [exact Hwaiting |].
      now constructor.
    + now rewrite app_assoc, map_app, Horder.
    + now rewrite app_assoc, map_app, Hhandles, seq_S.
    + rewrite app_assoc, filter_app, map_app, Hsocket.
      rewrite filter_cons_False by (cbn; congruence).
      now rewrite app_nil_r.
Qed.

Lemma invariant_status cs s st :
  invariant cs s -> invariant cs (onStatusLine st s).
Proof.
  intros [Hshape Horder Hhandles Hsocket]. unfold onStatusLine.
  destruct (queue s) as [| pc [| next waiting]] eqn:Hq.
  - split; rewrite ?Hq; assumption.
  - split; unfold completed in *; cbn [queue completions socket next_handle].
    + exact I.
    + now rewrite app_nil_r, map_app.
    + now rewrite app_nil_r, map_app.
    + now rewrite app_nil_r, map_app.
  - destruct Hshape as [Hpc Hrest].
    apply Forall_cons in Hrest as [Hnext Hwaiting].
    split; unfold completed in *; cbn [queue completions socket next_handle].
    + split; [reflexivity | exact Hwaiting].
    + rewrite <- Horder, !map_app. cbn [map fst]. now rewrite <- app_assoc.
    + rewrite <- Hhandles, !map_app. cbn [map fst]. now rewrite <- app_assoc.
    + rewrite <- Hsocket, !map_app. cbn [map fst].
      rewrite !filter_app, !map_app.
      rewrite (shape_in_flight [pc]) by (split; [exact Hpc | constructor]).
      rewrite (shape_in_flight (mark_in_flight next :: waiting))
        by (split; [reflexivity | exact Hwaiting]).
      rewrite (shape_in_flight (pc :: next :: waiting))
        by (split; [exact Hpc | now constructor]).
      cbn [take map]. now rewrite <- !app_assoc.
Qed.

Lemma invariant_teardown cs s :
  invariant cs s -> invariant cs (onTeardown s).
Proof.
  intros [Hshape Horder Hhandles Hsocket].
  assert (Hdone : completed (onTeardown s) = completed s ++ queue s).
  { unfold completed, onTeardown. simpl. rewrite map_app, map_map. simpl.
    now rewrite map_id. }
  split; rewrite ?Hdone; simpl; rewrite ?app_nil_r; auto.
Qed.

Lemma invariant_step cs s e :
  invariant cs s -> invariant (cs ++ submitted [e]) (step s e).
Proof.
  intros Hinv. destruct e as [c now | r | st | n |]; simpl.
  - now apply invariant_submit.
  - rewrite app_nil_r. destruct Hinv. now split.
  - rewrite app_nil_r. now apply invariant_status.
  - rewrite app_nil_r. destruct Hinv. now split.
  - rewrite app_nil_r. now apply invariant_teardown.
Qed.

Lemma invariant_run (evs : list event) : invariant (submitted evs) (run evs).
Proof.
  induction evs as [| e evs IH] using rev_ind.
  - exact invariant_init.
  - unfold run, submitted in *. rewrite fold_left_app, omap_app. simpl fold_left.
    now apply invariant_step.
Qed.

(** Three commands, the first answered with a row and status 0, the second
    with an error, the third cut off by the teardown. *)
Example run_three_commands :
  let cmd n := {| name := n; arguments := []; options := [] |} in
  let s := run [Submit (cmd "whoami") 0; Submit (cmd "version") 1;
                Row [("client_id", "1")];
                Notification {| event_name := "notifytextmessage"; payload := [] |};
                Status {| code := 0; message := "ok" |};
                Submit (cmd "quit") 2;
                Status {| code := 1024; message := "invalid serverID" |};
                Teardown] in
  map (fun d => (handle d.1, d.2)) (completions s)
  = [(0, Success [[("client_id", "1")]] {| code := 0; message := "ok" |});
     (1, CommandError {| code := 1024; message := "invalid serverID" |});
     (2, ConnectionClosed)]
  /\ socket s = [cmd "whoami"; cmd "version"; cmd "quit"]
  /\ queue s = [].
Proof. vm_compute. repeat split. Qed.

(** C1: after any sequence of submissions, rows, status lines,
    notifications and teardowns, the completions observed so far are, in
    their order, the first of the commands submitted so far (followed by
    the queue they are all of them, and handles number them in submission
    order); at most one command of the queue is in flight, and the commands
    written to the socket are the completed ones that had been put in
    flight followed by the one in flight now.  Every prefix of a sequence
    being a sequence, this holds at every point. *)
Theorem completions_in_submission_order (evs : list event) :
  let s := run evs in
  map command (completed s) `prefix_of` submitted evs
  /\ map command (completed s) ++ map command (queue s) = submitted evs
  /\ map handle (completed s ++ queue s) = seq 0 (length (submitted evs))
  /\ length (in_flight_now s) <= 1
  /\ socket s = map command (filter flying (completed s))
                ++ map command (in_flight_now s).
Proof.
  intros s. destruct (invariant_run evs) as [Hshape Horder Hhandles Hsocket].
  fold s in Hshape, Horder, Hhandles, Hsocket.
  repeat split.
  - exists (map command (queue s)). now rewrite <- map_app.
  - now rewrite <- map_app.
  - rewrite Hhandles. f_equal.
    rewrite <- Horder, length_map, <- (length_map handle), Hhandles.
    now rewrite length_seq.
  - unfold in_flight_now. rewrite (shape_in_flight _ Hshape).
    rewrite length_take. lia.
  - unfold in_flight_now. now rewrite <- Hsocket, filter_app, map_app.
Qed.

End CommandQueueProps.


(** ** Printing numbers *)

Example number_to_string_examples :
  map (fun z => number_to_string (Int z))
    [-42; 2 ^ 53; 2 ^ 64; 10 ^ 21 - 2 ^ 17; 10 ^ 21; 2 ^ 70; - 2 ^ 100]
  = ["-42"; "9007199254740992"; "18446744073709552000";
     "999999999999999900000"; "1e+21"; "1.1805916207174113e+21";
     "-1.2676506002282294e+30"].
Proof. vm_compute. reflexivity. Qed.

(** [parseInt] of a number reads the digits the number prints with. *)
Example parseInt_large_numbers :
  map (fun z => parseInt (VInt z)) [2 ^ 64; 10 ^ 21; 2 ^ 70]
  = [Int (2 ^ 64); Int 1; Int 1].
Proof. vm_compute. reflexivity. Qed.

Lemma number_to_string_small (z : Z) :
  Z.abs z < 2 ^ 53 -> number_to_string (Int z) = pretty z.
Proof.
  intros Hz. unfold number_to_string.
  destruct (Z.ltb_spec (Z.abs z) (2 ^ 53)) as [_ | Hge]; [reflexivity | lia].
Qed.

(** * Further properties of the facade *)

Set Warnings "-clear-no-such-hyp".

(** ** Permission lists and icon names *)

Lemma toArray_is_array (input : value) :
  exists elems, toArray input = Resolved (VArr elems).
Proof.
  destruct input; unfold toArray; simpl; eauto.
Qed.

Lemma toArray_array_of (input : value) :
  toArray input = Resolved (VArr (array_of input)).
Proof.
  destruct input; reflexivity.
Qed.

(** X1: each of the four permission list methods settles as the transport
    settles the command the method sends.  When the transport resolves that
    command (with nothing, a single row or an array of rows) the method
    resolves with an array: the empty one, the one row in an array, or the
    given array.  When the transport rejects that command the method rejects
    with the same error, and while the command is unanswered so is the
    method. *)
Theorem perm_lists_give_arrays `{T : Transport} (id permsid : value) :
  Forall (fun '(command, p) =>
            (forall res, ts3_execute command = Resolved res ->
               p = Resolved (VArr (array_of res)))
            /\ (forall e, ts3_execute command = Rejected e -> p = Rejected e)
            /\ (ts3_execute command = Pending -> p = Pending))
    (perm_lists id permsid).
Proof.
  assert (Hthen : forall command,
            let p := then_ (execute command) (fun res => Normal (toArray res)) in
            (forall res, ts3_execute command = Resolved res ->
               p = Resolved (VArr (array_of res)))
            /\ (forall e, ts3_execute command = Rejected e -> p = Rejected e)
            /\ (ts3_execute command = Pending -> p = Pending)).
  { intros command p. subst p. rewrite execute_eq.
    split; [| split].
    - intros res ->. simpl. apply toArray_array_of.
    - intros e ->. reflexivity.
    - intros ->. reflexivity. }
  unfold perm_lists. repeat constructor; apply Hthen.
Qed.

Lemma perm_lists_give_arrays_witness :
  ts3_execute (Transport := echo_transport)
    [VStr "servergrouppermlist"; VObj [("sgid", VInt 6)]; VArr [VNull]]
  = Resolved (VArr [VStr "servergrouppermlist"; VObj [("sgid", VInt 6)]; VArr [VNull]])
  /\ serverGroupPermList (T := echo_transport) (VInt 6) VUndefined
     = Resolved (VArr [VStr "servergrouppermlist"; VObj [("sgid", VInt 6)];
                       VArr [VNull]]).
Proof.
  assert (Hres : ts3_execute (Transport := echo_transport)
                   [VStr "servergrouppermlist"; VObj [("sgid", VInt 6)]; VArr [VNull]]
                 = Resolved (VArr [VStr "servergrouppermlist";
                                   VObj [("sgid", VInt 6)]; VArr [VNull]]))
    by reflexivity.
  split; [exact Hres |].
  pose proof (perm_lists_give_arrays (T := echo_transport) (VInt 6) VUndefined) as Hall.
  apply Forall_cons in Hall as [[Harr _] _].
  exact (Harr _ Hres).
Defined.

(** ** Keeping a cache in step with a list *)

Lemma elem_of_remove_first (k x : string) (remainder : list string) :
  NoDup remainder -> x ∈ remove_first k remainder <-> x ∈ remainder /\ x <> k.
Proof.
  induction 1 as [| r rest Hr Hrest IH]; simpl.
  - split; [intros H%elem_of_nil | intros [H%elem_of_nil _]]; contradiction.
  - destruct (String.eqb_spec k r) as [-> | Hne].
    + rewrite elem_of_cons. split.
      * intros Hx. split; [now right | intros ->; contradiction].
      * intros [[-> | Hx] Hxr]; [contradiction | exact Hx].
    + rewrite !elem_of_cons, IH. split.
      * intros [-> | [Hx Hxk]]; split; auto.
      * intros [[-> | Hx] Hxk]; auto.
Qed.

Lemma NoDup_remove_first (k : string) (remainder : list string) :
  NoDup remainder -> NoDup (remove_first k remainder).
Proof.
  induction 1 as [| r rest Hr Hrest IH]; simpl; [constructor |].
  destruct (String.eqb_spec k r); [exact Hrest |].
  constructor; [| exact IH].
  rewrite elem_of_remove_first by exact Hrest. tauto.
Qed.

Lemma handle_rows_insert_only (C : wrapper_class) (key : string) (rows : list value) :
  forall c remainder,
    dom (cache_entries c)
    ⊆ dom (cache_entries (handle_rows C key c remainder rows).1)
    /\ cache_is_array (handle_rows C key c remainder rows).1 = cache_is_array c.
Proof.
  induction rows as [| l rows IH]; intros c remainder; simpl; [split; set_solver |].
  destruct (get_prop l key) as [id | e]; [| split; set_solver].
  case_bool_decide.
  - destruct (cache_entries c !! toString id) as [w |]; [| split; set_solver].
    destruct (IH (cache_put (toString id) (class_updateCache C w l) c)
                (remove_first (toString id) remainder)) as [Hdom Harr].
    split; [| now rewrite Harr].
    etransitivity; [| exact Hdom]. simpl. set_solver.
  - destruct (IH (cache_put (toString id) (class_new C l) c) remainder) as [Hdom Harr].
    split; [| now rewrite Harr].
    etransitivity; [| exact Hdom]. simpl. set_solver.
Qed.

Lemma handle_rows_dom (C : wrapper_class) (key : string) (rows : list value) :
  forall c remainder,
    Forall readable rows -> NoDup remainder ->
    (forall k, k ∈ remainder -> is_Some (cache_entries c !! k)) ->
    exists c' remainder',
      handle_rows C key c remainder rows = (c', Normal remainder')
      /\ dom (cache_entries c')
         = dom (cache_entries c) ∪ list_to_set (row_key key <$> rows)
      /\ NoDup remainder'
      /\ (forall k, k ∈ remainder' <-> k ∈ remainder /\ k ∉ (row_key key <$> rows)).
Proof.
  induction rows as [| l rows IH]; intros c remainder Hrows Hnodup Hsome;
    cbn [handle_rows]; rewrite ?fmap_nil, ?fmap_cons.
  - exists c, remainder. repeat split; first [exact Hnodup | set_solver].
  - apply Forall_cons in Hrows as [Hl Hrows].
    assert (Hk : exists id, get_prop l key = Normal id /\ row_key key l = toString id).
    { unfold row_key. destruct Hl as [Hu Hn]. destruct l; try congruence; eauto. }
    destruct Hk as (id & -> & ->). set (k := toString id).
    case_bool_decide as Hin.
    + destruct (Hsome k Hin) as [w Hw]. rewrite Hw.
      destruct (IH (cache_put k (class_updateCache C w l) c) (remove_first k remainder)
                  Hrows (NoDup_remove_first k _ Hnodup)) as (c' & rem' & -> & Hdom & Hnd & Hrem).
      { intros k' Hk'. apply elem_of_remove_first in Hk' as [Hk' Hne]; [| exact Hnodup].
        simpl. rewrite lookup_insert_ne by congruence. now apply Hsome. }
      exists c', rem'. split; [reflexivity |]. split; [| split; [exact Hnd |]].
      * rewrite Hdom. simpl. rewrite dom_insert_L. set_solver.
      * intros k'. rewrite Hrem, elem_of_remove_first, elem_of_cons by exact Hnodup.
        tauto.
    + destruct (IH (cache_put k (class_new C l) c) remainder Hrows Hnodup)
        as (c' & rem' & -> & Hdom & Hnd & Hrem).
      { intros k' Hk'. simpl. destruct (decide (k = k')) as [<- | Hne].
        - rewrite lookup_insert_eq. eauto.
        - rewrite lookup_insert_ne by exact Hne. now apply Hsome. }
      exists c', rem'. split; [reflexivity |]. split; [| split; [exact Hnd |]].
      * rewrite Hdom. simpl. rewrite dom_insert_L. set_solver.
      * intros k'. rewrite Hrem, elem_of_cons.
        split; [| tauto]. intros [Hk' Hnot]. split; [exact Hk' |].
        intros [-> | Hin']; contradiction.
Qed.

Lemma dom_foldl_cache_delete (remainder : list string) :
  forall c,
    dom (cache_entries (foldl (fun c r => cache_delete r c) c remainder))
    = dom (cache_entries c) ∖ list_to_set remainder
    /\ cache_is_array (foldl (fun c r => cache_delete r c) c remainder)
       = cache_is_array c.
Proof.
  induction remainder as [| r rest IH]; intros c; simpl.
  - split; [set_solver | reflexivity].
  - destruct (IH (cache_delete r c)) as [-> ->]. simpl.
    rewrite dom_delete_L. split; [set_solver | reflexivity].
Qed.

Lemma elem_of_cache_keys (c : cache) (k : string) :
  k ∈ cache_keys c <-> is_Some (cache_entries c !! k).
Proof.
  unfold cache_keys. rewrite list_elem_of_fmap. split.
  - intros ([k' w] & -> & Hin). apply elem_of_map_to_list in Hin. eauto.
  - intros [w Hw]. exists (k, w). split; [reflexivity |].
    now apply elem_of_map_to_list.
Qed.

(** X2: when every row can be read, [_handleCache] resolves with the rows as
    an array and leaves in the cache exactly the ids of the rows: ids that
    were cached and are not listed any more are gone, listed ids are all
    there.  The cache stays the object or array it was. *)
Theorem _handleCache_keys (C : wrapper_class) (c : cache) (given : value) (key : string) :
  Forall readable (rows_of given) ->
  (_handleCache C c given key).2 = Resolved (VArr (rows_of given))
  /\ dom (cache_entries (_handleCache C c given key).1)
     = list_to_set (row_key key <$> rows_of given)
  /\ cache_is_array (_handleCache C c given key).1 = cache_is_array c.
Proof.
  intros Hrows. unfold _handleCache.
  destruct (handle_rows_dom C key (rows_of given) c (cache_keys c) Hrows)
    as (c' & rem' & Heq & Hdom & Hnd & Hrem).
  { apply NoDup_fst_map_to_list. }
  { intros k. apply elem_of_cache_keys. }
  pose proof (handle_rows_insert_only C key (rows_of given) c (cache_keys c)) as [_ Harr].
  rewrite Heq in Harr |- *. simpl in Harr |- *.
  destruct (dom_foldl_cache_delete rem' c') as [-> ->].
  split; [reflexivity | split; [| exact Harr]].
  rewrite Hdom. apply set_eq. intros k.
  rewrite elem_of_difference, elem_of_union, !elem_of_list_to_set, Hrem.
  rewrite elem_of_cache_keys, elem_of_dom.
  destruct (decide (k ∈ row_key key <$> rows_of given)); tauto.
Qed.

Lemma _handleCache_keys_witness :
  Forall readable (rows_of (VArr [VObj [("clid", VInt 2)]; VObj [("clid", VInt 3)]]))
  /\ dom (cache_entries
            (_handleCache counting_class two_clients
               (VArr [VObj [("clid", VInt 2)]; VObj [("clid", VInt 3)]]) "clid").1)
     = list_to_set ["2"; "3"].
Proof.
  assert (Hrows : Forall readable
                    (rows_of (VArr [VObj [("clid", VInt 2)]; VObj [("clid", VInt 3)]]))).
  { repeat constructor; discriminate. }
  split; [exact Hrows |].
  exact (proj1 (proj2 (_handleCache_keys counting_class two_clients _ "clid" Hrows))).
Defined.

Lemma lookup_foldl_cache_delete (remainder : list string) (k : string) :
  forall c, k ∉ remainder ->
    cache_entries (foldl (fun c r => cache_delete r c) c remainder) !! k
    = cache_entries c !! k.
Proof.
  induction remainder as [| r rest IH]; intros c Hk; simpl; [reflexivity |].
  rewrite not_elem_of_cons in Hk. destruct Hk as [Hne Hk].
  rewrite IH by exact Hk. simpl. now rewrite lookup_delete_ne.
Qed.

(** The wrapper filed for a row: the cached one updated when its id is in
    the remainder, a new one otherwise. *)
Lemma handle_rows_entries (C : wrapper_class) (key : string) (rows : list value) :
  forall c remainder,
    Forall readable rows -> NoDup (row_key key <$> rows) -> NoDup remainder ->
    (forall k, k ∈ remainder -> is_Some (cache_entries c !! k)) ->
    forall l, l ∈ rows ->
      cache_entries (handle_rows C key c remainder rows).1 !! row_key key l
      = Some (if bool_decide (row_key key l ∈ remainder)
              then match cache_entries c !! row_key key l with
                   | Some w => class_updateCache C w l
                   | None => VUndefined
                   end
              else class_new C l).
Proof.
  assert (Hframe : forall rows c remainder k,
             k ∉ (row_key key <$> rows) ->
             cache_entries (handle_rows C key c remainder rows).1 !! k
             = cache_entries c !! k).
  { clear. induction rows as [| l rows IH]; intros c remainder k Hk;
      cbn [handle_rows]; [reflexivity |].
    rewrite fmap_cons, not_elem_of_cons in Hk. destruct Hk as [Hne Hk].
    unfold row_key in Hne.
    destruct (get_prop l key) as [id | e]; [| reflexivity].
    case_bool_decide.
    - destruct (cache_entries c !! toString id) as [w |]; [| reflexivity].
      rewrite IH by exact Hk. simpl. now rewrite lookup_insert_ne.
    - rewrite IH by exact Hk. simpl. now rewrite lookup_insert_ne. }
  induction rows as [| l0 rows IH]; intros c remainder Hrows Hkeys Hnodup Hsome l Hl;
    [now apply elem_of_nil in Hl |].
  apply Forall_cons in Hrows as [Hl0 Hrows].
  rewrite fmap_cons in Hkeys. apply NoDup_cons in Hkeys as [Hfresh Hkeys].
  assert (Hk : exists id, get_prop l0 key = Normal id /\ row_key key l0 = toString id).
  { unfold row_key. destruct Hl0 as [Hu Hn]. destruct l0; try congruence; eauto. }
  destruct Hk as (id & Hget & Hk0). cbn [handle_rows]. rewrite Hget.
  rewrite Hk0 in Hfresh. set (k0 := toString id) in *.
  apply elem_of_cons in Hl as [-> | Hl].
  - rewrite Hk0. fold k0. case_bool_decide as Hin.
    + destruct (Hsome k0 Hin) as [w Hw]. rewrite Hw.
      rewrite Hframe by exact Hfresh. simpl. now rewrite lookup_insert_eq.
    + rewrite Hframe by exact Hfresh. simpl. now rewrite lookup_insert_eq.
  - assert (Hne : row_key key l <> k0).
    { intros Heq. apply Hfresh. rewrite <- Heq. now apply list_elem_of_fmap_2. }
    case_bool_decide as Hin.
    + destruct (Hsome k0 Hin) as [w Hw]. rewrite Hw.
      rewrite IH; try assumption.
      * simpl. rewrite lookup_insert_ne by congruence.
        destruct (decide (row_key key l ∈ remainder)) as [Hr | Hr].
        -- rewrite !bool_decide_eq_true_2; [reflexivity | exact Hr |].
           apply elem_of_remove_first; [exact Hnodup | tauto].
        -- rewrite !bool_decide_eq_false_2; [reflexivity | exact Hr |].
           rewrite elem_of_remove_first by exact Hnodup. tauto.
      * now apply NoDup_remove_first.
      * intros k Hk. apply elem_of_remove_first in Hk as [Hk Hkne]; [| exact Hnodup].
        simpl. rewrite lookup_insert_ne by congruence. now apply Hsome.
    + rewrite IH; try assumption.
      * simpl. now rewrite lookup_insert_ne by congruence.
      * intros k Hk. simpl. destruct (decide (k0 = k)) as [<- | Hkne].
        -- rewrite lookup_insert_eq. eauto.
        -- rewrite lookup_insert_ne by exact Hkne. now apply Hsome.
Qed.

(** X3: when every row can be read and no id occurs twice, the wrapper
    under the id of a row is afterwards the cached wrapper updated with the
    row if the id was cached, and a new wrapper made from the row if not:
    a wrapper that is still listed is never replaced. *)
Theorem _handleCache_entries (C : wrapper_class) (c : cache) (given : value)
    (key : string) (l : value) :
  Forall readable (rows_of given) -> NoDup (row_key key <$> rows_of given) ->
  l ∈ rows_of given ->
  cache_entries (_handleCache C c given key).1 !! row_key key l
  = Some match cache_entries c !! row_key key l with
         | Some w => class_updateCache C w l
         | None => class_new C l
         end.
Proof.
  intros Hrows Hkeys Hl. unfold _handleCache.
  pose proof (handle_rows_entries C key (rows_of given) c (cache_keys c) Hrows Hkeys
                (NoDup_fst_map_to_list _) (fun k => proj1 (elem_of_cache_keys c k)) l Hl)
    as Hentry.
  destruct (handle_rows_dom C key (rows_of given) c (cache_keys c) Hrows
              (NoDup_fst_map_to_list _) (fun k => proj1 (elem_of_cache_keys c k)))
    as (c' & rem' & Heq & _ & _ & Hrem).
  rewrite Heq in Hentry |- *. simpl in Hentry |- *.
  rewrite lookup_foldl_cache_delete.
  - rewrite Hentry. case_bool_decide as Hin.
    + apply elem_of_cache_keys in Hin as [w ->]. reflexivity.
    + destruct (cache_entries c !! row_key key l) as [w |] eqn:Hw; [| reflexivity].
      exfalso. apply Hin, elem_of_cache_keys. eauto.
  - intros Hin. apply Hrem in Hin as [_ Hnot]. apply Hnot.
    now apply list_elem_of_fmap_2.
Qed.

Lemma _handleCache_entries_witness :
  Forall readable (rows_of (VArr [VObj [("clid", VInt 2)]; VObj [("clid", VInt 3)]]))
  /\ cache_entries
       (_handleCache counting_class two_clients
          (VArr [VObj [("clid", VInt 2)]; VObj [("clid", VInt 3)]]) "clid").1 !! "2"
     = Some (VObj [("data", VObj [("clid", VInt 2)]); ("updates", VInt 1)]).
Proof.
  assert (Hrows : Forall readable
                    (rows_of (VArr [VObj [("clid", VInt 2)]; VObj [("clid", VInt 3)]]))).
  { repeat constructor; discriminate. }
  split; [exact Hrows |].
  apply (_handleCache_entries counting_class two_clients
           (VArr [VObj [("clid", VInt 2)]; VObj [("clid", VInt 3)]]) "clid"
           (VObj [("clid", VInt 2)]) Hrows).
  - apply (bool_decide_unpack _). vm_compute. exact I.
  - apply list_elem_of_here.
Defined.

Lemma unreadable_row (rows : list value) :
  Forall readable rows \/ exists l, l ∈ rows /\ (l = VUndefined \/ l = VNull).
Proof.
  induction rows as [| l rows [IH | (l' & Hin & Hl')]].
  - left. constructor.
  - destruct l; try (left; constructor; [split; discriminate | exact IH]);
      right; eexists; (split; [apply list_elem_of_here | auto]).
  - right. exists l'. split; [now apply list_elem_of_further | exact Hl'].
Qed.

(** X4: [_handleCache] rejects only when a row is [undefined] or [null],
    and then it has evicted nothing: every id that was cached is still
    cached, whether listed or not. *)
Theorem _handleCache_rejected (C : wrapper_class) (c : cache) (given : value)
    (key : string) (e : js_error) :
  (_handleCache C c given key).2 = Rejected e ->
  (exists l, l ∈ rows_of given /\ (l = VUndefined \/ l = VNull))
  /\ dom (cache_entries c) ⊆ dom (cache_entries (_handleCache C c given key).1).
Proof.
  intros Hrej. split.
  - destruct (unreadable_row (rows_of given)) as [Hrows | Hbad]; [| exact Hbad].
    apply (_handleCache_keys C c given key) in Hrows as [Hres _].
    rewrite Hres in Hrej. discriminate.
  - unfold _handleCache in *.
    pose proof (handle_rows_insert_only C key (rows_of given) c (cache_keys c)) as [Hdom _].
    destruct (handle_rows C key c (cache_keys c) (rows_of given)) as [c' [rem | e']];
      [discriminate | exact Hdom].
Qed.

Lemma _handleCache_rejected_witness :
  (_handleCache counting_class two_clients
     (VArr [VObj [("clid", VInt 3)]; VUndefined]) "clid").2
  = Rejected (TypeError "Cannot read property 'clid' of undefined")
  /\ dom (cache_entries two_clients)
     ⊆ dom (cache_entries
              (_handleCache counting_class two_clients
                 (VArr [VObj [("clid", VInt 3)]; VUndefined]) "clid").1).
Proof.
  assert (Hrej : (_handleCache counting_class two_clients
                    (VArr [VObj [("clid", VInt 3)]; VUndefined]) "clid").2
                 = Rejected (TypeError "Cannot read property 'clid' of undefined")).
  { vm_compute. reflexivity. }
  split; [exact Hrej |].
  exact (proj2 (_handleCache_rejected counting_class two_clients _ "clid" _ Hrej)).
Defined.

(** ** Icon names *)

Lemma find_icon_skips `{B : Builtins} (before rest : list value) :
  Forall not_icon before -> find_icon (before ++ rest) = find_icon rest.
Proof.
  induction 1 as [| perm before (permsid & Hget & Hno) _ IH]; [reflexivity |].
  simpl. rewrite Hget. simpl. now rewrite Hno.
Qed.

(** X5: [getIconName] resolves with the name made from the first
    "i_icon_id" row of the list, whatever follows it. *)
Theorem getIconName_first_icon `{B : Builtins}
    (before after : list value) (perm permvalue : value) :
  Forall not_icon before ->
  get_prop perm "permsid" = Normal (VStr "i_icon_id") ->
  get_prop perm "permvalue" = Normal permvalue ->
  getIconName (Resolved (VArr (before ++ perm :: after)))
  = Resolved (VStr (icon_name permvalue)).
Proof.
  intros Hbefore Hsid Hvalue. unfold getIconName.
  rewrite (find_icon_skips before _ Hbefore). simpl.
  rewrite Hsid. simpl. rewrite Hvalue. reflexivity.
Qed.

(** X6: with no "i_icon_id" row in the list, an empty list included,
    [getIconName] rejects with "no icon found". *)
Theorem getIconName_no_icon `{B : Builtins} (perms : list value) :
  Forall not_icon perms ->
  getIconName (Resolved (VArr perms)) = Rejected (Error (VStr "no icon found")).
Proof.
  intros Hperms. unfold getIconName.
  rewrite <- (app_nil_r perms), (find_icon_skips perms [] Hperms). reflexivity.
Qed.

(** X7: for an integer permvalue [v] with [-2^32 <= v < 2^53] the name
    carries the icon id as an unsigned number in decimal digits: [v + 2^32]
    for a negative [v], [v] itself otherwise; it never carries a negative
    number. *)
Theorem icon_name_unsigned `{B : Builtins} (v : Z) :
  - 2 ^ 32 <= v < 2 ^ 53 ->
  icon_name (VInt v) = "icon_" ++ pretty (if v <? 0 then v + 2 ^ 32 else v)
  /\ 0 <= (if v <? 0 then v + 2 ^ 32 else v).
Proof.
  intros Hv. unfold icon_name, lt_zero, to_number, number_to_double, to_uint32.
  destruct (Z.ltb_spec v 0) as [Hneg | Hpos].
  - split; [| lia]. rewrite Z.quot_1_r.
    replace (v mod 2 ^ 32) with (v + 2 ^ 32).
    + cbn [toString]. rewrite number_to_string_small by lia. reflexivity.
    + rewrite <- (Z.mod_add v 1 (2 ^ 32)) by lia.
      rewrite Z.mul_1_l. symmetry. apply Z.mod_small. lia.
  - split; [| lia]. cbn [toString]. rewrite number_to_string_small by lia.
    reflexivity.
Qed.

(** Beyond [2^53] the name carries the digits JavaScript prints, not the
    decimal expansion. *)
Example icon_name_large :
  icon_name (B := nan_builtins) (VInt (2 ^ 64)) = "icon_18446744073709552000".
Proof. vm_compute. reflexivity. Qed.

(** X8: when the transport rejects the command one of the four permission
    list methods sends, the icon name promise made from that method's list
    never settles: the rejection of the list is not passed on. *)
Theorem getIconName_of_rejected_list `{T : Transport} `{B : Builtins}
    (id permsid : value) :
  Forall (fun '(command, permlist) =>
            forall e, ts3_execute command = Rejected e ->
                      getIconName permlist = Pending)
    (perm_lists id permsid).
Proof.
  assert (Hthen : forall command e,
            ts3_execute command = Rejected e ->
            getIconName (then_ (execute command) (fun res => Normal (toArray res)))
            = Pending).
  { intros command e Hrej. rewrite execute_eq, Hrej. reflexivity. }
  unfold perm_lists. repeat constructor; apply Hthen.
Qed.

Lemma getIconName_first_icon_witness :
  Forall not_icon [VObj [("permsid", VStr "b_client_kick"); ("permvalue", VInt 1)]]
  /\ getIconName (B := nan_builtins)
       (Resolved (VArr ([VObj [("permsid", VStr "b_client_kick"); ("permvalue", VInt 1)]]
                        ++ VObj [("permsid", VStr "i_icon_id"); ("permvalue", VInt (-5))]
                        :: [VObj [("permsid", VStr "i_icon_id"); ("permvalue", VInt 7)]])))
     = Resolved (VStr "icon_4294967291").
Proof.
  assert (Hbefore : Forall not_icon
                      [VObj [("permsid", VStr "b_client_kick"); ("permvalue", VInt 1)]]).
  { repeat constructor. eexists. split; reflexivity. }
  split; [exact Hbefore |].
  exact (getIconName_first_icon (B := nan_builtins) _ _
           (VObj [("permsid", VStr "i_icon_id"); ("permvalue", VInt (-5))]) (VInt (-5))
           Hbefore eq_refl eq_refl).
Defined.

Lemma getIconName_no_icon_witness :
  Forall not_icon [VObj [("permsid", VStr "b_client_kick"); ("permvalue", VInt 1)]]
  /\ getIconName (B := nan_builtins)
       (Resolved (VArr [VObj [("permsid", VStr "b_client_kick"); ("permvalue", VInt 1)]]))
     = Rejected (Error (VStr "no icon found")).
Proof.
  assert (Hperms : Forall not_icon
                     [VObj [("permsid", VStr "b_client_kick"); ("permvalue", VInt 1)]]).
  { repeat constructor. eexists. split; reflexivity. }
  split; [exact Hperms |].
  exact (getIconName_no_icon (B := nan_builtins) _ Hperms).
Defined.

Lemma icon_name_unsigned_witness :
  - 2 ^ 32 <= -1 < 2 ^ 53
  /\ icon_name (B := nan_builtins) (VInt (-1)) = "icon_4294967295".
Proof.
  assert (Hv : - 2 ^ 32 <= -1 < 2 ^ 53) by lia.
  split; [exact Hv |].
  exact (proj1 (icon_name_unsigned (B := nan_builtins) (-1) Hv)).
Defined.

Lemma getIconName_of_rejected_list_witness :
  ts3_execute (Transport := refusing_transport)
    [VStr "servergrouppermlist"; VObj [("sgid", VInt 6)]; VArr [VNull]]
  = Rejected (Error (VStr "invalid serverID"))
  /\ getIconName (B := nan_builtins)
       (serverGroupPermList (T := refusing_transport) (VInt 6) VUndefined)
     = Pending.
Proof.
  assert (Hrej : ts3_execute (Transport := refusing_transport)
                   [VStr "servergrouppermlist"; VObj [("sgid", VInt 6)]; VArr [VNull]]
                 = Rejected (Error (VStr "invalid serverID")))
    by reflexivity.
  split; [exact Hrej |].
  pose proof (getIconName_of_rejected_list (T := refusing_transport) (B := nan_builtins)
                (VInt 6) VUndefined) as Hall.
  apply Forall_cons in Hall as [Hfirst _]. exact (Hfirst _ Hrej).
Defined.

(** ** Clients entering and leaving *)

(** X9: a client that enters and then leaves is gone from the cache, the
    other cached clients and the other four caches being as before; the
    "clientdisconnect" event carries what the wrapper made on entering gives
    as its cache, and the row of the leave event. *)
Theorem enter_then_leave (TeamSpeakClient : wrapper_class) (this : instance)
    (entered left clid clid' : value) :
  get_prop entered "clid" = Normal clid ->
  get_prop left "clid" = Normal clid' ->
  toString clid = toString clid' ->
  exists this1 this2 ctid,
    get_prop entered "ctid" = Normal ctid
    /\ _evcliententerview TeamSpeakClient this entered
       = Normal (this1,
                 [Emit "clientconnect"
                    (VObj [("client", class_new TeamSpeakClient entered);
                           ("cid", ctid)])])
    /\ _evclientleftview TeamSpeakClient this1 left
       = Normal (this2,
                 [Emit "clientdisconnect"
                    (VObj [("client", class_getCache TeamSpeakClient
                                        (class_new TeamSpeakClient entered));
                           ("event", left)])])
    /\ cache_entries (_clients this2)
       = delete (toString clid) (cache_entries (_clients this))
    /\ this2 = with_clients this (_clients this2).
Proof.
  intros Hentered Hleft Hsame.
  assert (Hctid : exists ctid, get_prop entered "ctid" = Normal ctid).
  { destruct entered; try discriminate; simpl; eauto. }
  destruct Hctid as [ctid Hctid].
  unfold _evcliententerview, _evclientleftview.
  rewrite Hentered. cbn [mbind completion_bind]. rewrite Hctid.
  cbn [mbind completion_bind mret completion_ret].
  do 2 eexists. exists ctid. split; [reflexivity |].
  cbn [_clients with_clients cache_put cache_entries].
  rewrite lookup_insert_eq. split; [reflexivity |].
  rewrite Hleft. cbn [mbind completion_bind mret completion_ret].
  cbn [_clients with_clients cache_put cache_entries].
  rewrite <- Hsame, lookup_insert_eq.
  split; [reflexivity |].
  cbn [_clients with_clients cache_delete cache_entries].
  split; [apply delete_insert_eq | reflexivity].
Qed.

Lemma enter_then_leave_witness :
  get_prop (VObj [("clid", VInt 3); ("ctid", VInt 9)]) "clid" = Normal (VInt 3)
  /\ exists this1 this2,
      _evcliententerview counting_class filled_instance
        (VObj [("clid", VInt 3); ("ctid", VInt 9)])
      = Normal (this1,
                [Emit "clientconnect"
                   (VObj [("client", class_new counting_class
                                       (VObj [("clid", VInt 3); ("ctid", VInt 9)]));
                          ("cid", VInt 9)])])
      /\ _evclientleftview counting_class this1 (VObj [("clid", VStr "3")])
         = Normal (this2,
                   [Emit "clientdisconnect"
                      (VObj [("client", VObj [("clid", VInt 3); ("ctid", VInt 9)]);
                             ("event", VObj [("clid", VStr "3")])])])
      /\ cache_entries (_clients this2)
         = delete "3" (cache_entries (_clients filled_instance)).
Proof.
  split; [reflexivity |].
  destruct (enter_then_leave counting_class filled_instance
              (VObj [("clid", VInt 3); ("ctid", VInt 9)]) (VObj [("clid", VStr "3")])
              (VInt 3) (VStr "3") eq_refl eq_refl eq_refl)
    as (this1 & this2 & ctid & Hctid & Henter & Hleave & Hcache & _).
  injection Hctid as <-.
  exists this1, this2. auto.
Defined.

(** ** Defaults of a file transfer *)

Lemma obj_get_set (k k' : string) (v : value) (o : record) :
  obj_get k (obj_set k' v o) = if String.eqb k k' then Some v else obj_get k o.
Proof.
  induction o as [| [k0 v0] o IH]; simpl.
  - reflexivity.
  - destruct (String.eqb_spec k' k0) as [-> | Hne]; simpl.
    + destruct (String.eqb k k0); reflexivity.
    + rewrite IH. destruct (String.eqb_spec k k0) as [-> | Hne'];
        [| reflexivity].
      destruct (String.eqb_spec k0 k'); [congruence | reflexivity].
Qed.

Lemma overlay_step (k d : string) (v : value) (o : record) :
  obj_get k (if negb (obj_has d o) then obj_set d v o else o)
  = match obj_get k o with
    | Some x => Some x
    | None => if String.eqb k d then Some v else None
    end.
Proof.
  unfold obj_has. destruct (obj_get d o) as [x |] eqn:Hd; simpl.
  - destruct (obj_get k o) eqn:Hk; [reflexivity |].
    destruct (String.eqb_spec k d) as [-> | _]; [congruence | reflexivity].
  - rewrite obj_get_set. destruct (String.eqb_spec k d) as [-> | _].
    + now rewrite Hd.
    + now destruct (obj_get k o).
Qed.

(** X10: the record [ftInitUpload] and [ftInitDownload] hand to execute is
    the caller's record laid over the defaults: a field the caller has set,
    be it to [undefined], keeps its value, and every other default field is
    there with its default. *)
Theorem ftInit_defaults (rnd : Z) (transfer : record) (k : string) :
  obj_get k (call_record (ftInitUpload_call rnd transfer))
  = overlay k transfer [("clientftfid", VInt rnd); ("cid", VInt 0);
                        ("resume", VInt 0); ("overwrite", VInt 1)]
  /\ obj_get k (call_record (ftInitDownload_call rnd transfer))
     = overlay k transfer [("clientftfid", VInt rnd); ("seekpos", VInt 0);
                           ("cpw", VStr ""); ("cid", VInt 0); ("path", VStr "/")].
Proof.
  unfold ftInitUpload_call, ftInitDownload_call, call_record, overlay.
  split; rewrite !overlay_step; destruct (obj_get k transfer); try reflexivity; simpl;
    repeat (destruct (String.eqb k _); [reflexivity |]); reflexivity.
Qed.

(** ** Downloading an icon *)



(** ** Connecting *)

Lemma promise_all_resolved (ps : list outcome) :
  (exists v, promise_all ps = Resolved v)
  <-> Forall (fun p => exists v, p = Resolved v) ps.
Proof.
  assert (Harr : forall ps v, promise_all ps = Resolved v -> exists vs, v = VArr vs).
  { clear. induction ps as [| [v | e |] ps IH]; intros w Hw; simpl in Hw.
    - injection Hw as <-. eauto.
    - destruct (promise_all ps) as [[] | |] eqn:Hps; try discriminate;
        try (injection Hw as <-; eauto);
        destruct (IH _ eq_refl) as [vs Hvs]; discriminate.
    - discriminate.
    - destruct (promise_all ps); discriminate. }
  induction ps as [| [v | e |] ps IH]; simpl.
  - split; [constructor | eauto].
  - split.
    + intros [w Hw]. constructor; [eauto |]. apply IH.
      destruct (promise_all ps) as [u | |]; try discriminate. eauto.
    + intros Hall. apply Forall_cons in Hall as [_ Hall].
      apply IH in Hall as [u Hu]. rewrite Hu.
      destruct (Harr _ _ Hu) as [vs ->]. eauto.
  - split; [intros [w Hw]; discriminate |].
    intros Hall. apply Forall_cons in Hall as [[w Hw] _]. discriminate.
  - split.
    + intros [w Hw]. destruct (promise_all ps); discriminate.
    + intros Hall. apply Forall_cons in Hall as [[w Hw] _]. discriminate.
Qed.

Lemma promise_all_rejected (ps : list outcome) :
  (exists e, promise_all ps = Rejected e)
  <-> Exists (fun p => exists e, p = Rejected e) ps.
Proof.
  induction ps as [| [v | e |] ps IH]; simpl.
  - split; [intros [e He]; discriminate | intros H; inversion H].
  - rewrite Exists_cons, <- IH. split.
    + intros [e He]. right.
      destruct (promise_all ps) as [[] | e' |]; try discriminate; eauto.
    + intros [[e He] | [e He]]; [discriminate |]. rewrite He. eauto.
  - rewrite Exists_cons. split; eauto.
  - rewrite Exists_cons, <- IH. split.
    + intros [e He]. right. destruct (promise_all ps); try discriminate; eauto.
    + intros [[e He] | [e He]]; [discriminate |]. rewrite He. eauto.
Qed.

Lemma _cacheCleanUp_passes (this : instance) (promise : outcome) :
  (_cacheCleanUp this promise).2 = promise.
Proof. now destruct promise. Qed.

(** What [on_connect] emits, from what the transport answers to the commands
    sent. *)
Lemma on_connect_emits `{T : Transport} (this : instance) :
  (on_connect this).2
  = match promise_all (ts3_execute <$> (on_connect this).1.2) with
    | Resolved _ => Some (Emit "ready" VUndefined)
    | Rejected e => Some (EmitError e)
    | Pending => None
    end.
Proof.
  unfold on_connect. cbv zeta.
  destruct (String.eqb (typeof (username (_config this))) "string"
            && is_raw (protocol (_config this))),
    (String.eqb (typeof (serverport (_config this))) "number"),
    (String.eqb (typeof (nickname (_config this))) "string");
    cbn [fst snd app fmap list_fmap]; unfold login, clientUpdate, useByPort;
    rewrite ?_cacheCleanUp_passes, ?execute_eq; reflexivity.
Qed.

(** X12: on connect, "ready" is emitted exactly when the transport resolves
    every command the handler has sent (at once, when it sends none), and
    "error" exactly when it rejects one of them. *)
Theorem ready_iff_all_resolved `{T : Transport} (this : instance) :
  ((on_connect this).2 = Some (Emit "ready" VUndefined)
   <-> Forall (fun call => exists v, ts3_execute call = Resolved v) (on_connect this).1.2)
  /\ ((exists e, (on_connect this).2 = Some (EmitError e))
      <-> Exists (fun call => exists e, ts3_execute call = Rejected e)
            (on_connect this).1.2).
Proof.
  rewrite on_connect_emits. set (sent := (on_connect this).1.2). split.
  - assert (Hall : Forall (fun call => exists v, ts3_execute call = Resolved v) sent
                   <-> Forall (fun p => exists v, p = Resolved v) (ts3_execute <$> sent))
      by (now rewrite Forall_fmap).
    rewrite Hall, <- promise_all_resolved.
    destruct (promise_all (ts3_execute <$> sent)); split;
      try discriminate; eauto; intros [v Hv]; discriminate.
  - assert (Hany : Exists (fun call => exists e, ts3_execute call = Rejected e) sent
                   <-> Exists (fun p => exists e, p = Rejected e) (ts3_execute <$> sent))
      by (now rewrite Exists_fmap).
    rewrite Hany, <- promise_all_rejected.
    destruct (promise_all (ts3_execute <$> sent)); split;
      try (intros [e' He]; discriminate); eauto.
Qed.

Lemma typeof_string_or_false (v : value) :
  String.eqb (typeof (or_else v (VBool false))) "string" = is_nonempty_string v.
Proof.
  unfold or_else. destruct v as [| | [|] | [| z | []] | s | | | |]; try reflexivity.
  - simpl. destruct (z =? 0); reflexivity.
  - simpl. destruct (String.eqb s ""); reflexivity.
Qed.

Lemma nonempty_string_or_else (v d : value) :
  is_nonempty_string v = true -> or_else v d = v.
Proof.
  unfold or_else. destruct v; try discriminate. simpl. now intros ->.
Qed.

(** X13: what the connect handler sends, read off the caller's
    configuration: "login" with username and password when the username is a
    non-empty string and the protocol is "raw" or not given; then "use" with
    the port when serverport parses to a nonzero number; then "clientupdate"
    with the nickname when that is a non-empty string. *)
Theorem connect_commands `{T : Transport} (arg : option (gmap string value)) :
  let c := default ∅ arg in
  (on_connect (constructor arg).1).1.2
  = ((if is_nonempty_string (cfg c "username")
         && (negb (toBoolean (cfg c "protocol")) || is_raw (cfg c "protocol"))
      then [[VStr "login";
             VArr [cfg c "username"; or_else (cfg c "password") (VBool false)]]]
      else [])
     ++ (if number_truthy (parseInt (cfg c "serverport"))
         then [[VStr "use"; VObj [("port", VNum (parseInt (cfg c "serverport")))]]]
         else [])
     ++ (if is_nonempty_string (cfg c "nickname")
         then [[VStr "clientupdate"; VObj [("client_nickname", cfg c "nickname")]]]
         else []))%list.
Proof.
  intros c. unfold on_connect, constructor. fold c.
  cbn [fst snd _config username password protocol serverport nickname].
  rewrite !typeof_string_or_false.
  assert (Hraw : is_raw (or_else (cfg c "protocol") (VStr "raw"))
                 = negb (toBoolean (cfg c "protocol")) || is_raw (cfg c "protocol")).
  { unfold or_else. destruct (toBoolean (cfg c "protocol")); reflexivity. }
  assert (Hport : String.eqb (typeof (falsy_to_false (parseInt (cfg c "serverport"))))
                    "number"
                  = number_truthy (parseInt (cfg c "serverport"))).
  { unfold falsy_to_false. destruct (number_truthy _); reflexivity. }
  rewrite Hraw, Hport.
  destruct (is_nonempty_string (cfg c "username")) eqn:Huser,
    (negb (toBoolean (cfg c "protocol")) || is_raw (cfg c "protocol")),
    (number_truthy (parseInt (cfg c "serverport"))) eqn:Hnum,
    (is_nonempty_string (cfg c "nickname")) eqn:Hnick;
    cbn [andb app];
    rewrite ?(nonempty_string_or_else _ _ Huser), ?(nonempty_string_or_else _ _ Hnick);
    unfold falsy_to_false; rewrite ?Hnum; reflexivity.
Qed.

Lemma or_else_truthy (v d : value) :
  toBoolean d = true -> toBoolean (or_else v d) = true.
Proof. unfold or_else. intros Hd. now destruct (toBoolean v) eqn:Hv. Qed.

Lemma or_else_false (v : value) :
  or_else v (VBool false) = VBool false \/ toBoolean (or_else v (VBool false)) = true.
Proof. unfold or_else. destruct (toBoolean v) eqn:Hv; auto. Qed.

Lemma num_or_truthy (n d : number) :
  number_truthy d = true -> number_truthy (num_or n d) = true.
Proof. unfold num_or. intros Hd. now destruct (number_truthy n) eqn:Hn. Qed.

(** X14: whatever the caller's configuration holds, the stored one has a
    truthy protocol and host, a queryport and an antispamtimer that are
    neither NaN nor 0, a serverport that is [false] or a number other than
    NaN and 0, and a username, password and nickname that are each [false] or
    truthy. *)
Theorem config_normalised (arg : option (gmap string value)) :
  let conf := _config (constructor arg).1 in
  toBoolean (protocol conf) = true
  /\ toBoolean (host conf) = true
  /\ number_truthy (queryport conf) = true
  /\ number_truthy (antispamtimer conf) = true
  /\ (serverport conf = VBool false
      \/ exists n, serverport conf = VNum n /\ number_truthy n = true)
  /\ Forall (fun v => v = VBool false \/ toBoolean v = true)
       [username conf; password conf; nickname conf].
Proof.
  intros conf. subst conf. unfold constructor.
  cbn [fst _config protocol host queryport antispamtimer serverport
         username password nickname].
  repeat split.
  - now apply or_else_truthy.
  - now apply or_else_truthy.
  - now apply num_or_truthy.
  - now apply num_or_truthy.
  - unfold falsy_to_false.
    destruct (number_truthy (parseInt (cfg (default ∅ arg) "serverport"))) eqn:Hn; eauto.
  - repeat (apply List.Forall_cons; [apply or_else_false |]). apply List.Forall_nil.
Qed.

(** ** Filtering rows *)

Lemma filter_rows_ext `{B : Builtins} (f g : record) (rows : list value) :
  Forall (fun a => filter_row a f (f.*1) = filter_row a g (g.*1)) rows ->
  filter_rows rows f = filter_rows rows g.
Proof.
  induction 1 as [| a rows Ha _ IH]; [reflexivity |].
  cbn [filter_rows]. now rewrite Ha, IH.
Qed.

(** X15: on rows that are objects in which the field of the first key of the
    filter is missing or a number or a string, only that first key counts:
    the other keys of the filter are never looked at. *)
Theorem _filter_first_key `{B : Builtins}
    (rows : list value) (k : string) (fk : value) (others : record) :
  Forall (plain_field k) rows ->
  _filter (VArr rows) ((k, fk) :: others) = _filter (VArr rows) [(k, fk)].
Proof.
  intros Hrows. unfold _filter. cbn [List.length Nat.eqb rows_of].
  rewrite (filter_rows_ext ((k, fk) :: others) [(k, fk)]); [reflexivity |].
  eapply Forall_impl; [exact Hrows |].
  intros a (o & -> & Hfield). cbn [fmap list_fmap fst filter_row has_field field].
  unfold obj_has. cbn [obj_get]. rewrite String.eqb_refl. cbn [default from_option id].
  destruct (obj_get k o) as [ak |]; [| reflexivity].
  cbn [mbind completion_bind negb default from_option id].
  unfold filter_case.
  destruct (is_array fk); [reflexivity |].
  destruct ak; try contradiction; reflexivity.
Qed.

Lemma _filter_first_key_witness :
  Forall (plain_field "client_type")
    [VObj [("clid", VInt 1); ("client_type", VStr "0")];
     VObj [("clid", VInt 2); ("client_type", VStr "1")]]
  /\ _filter (B := nan_builtins)
       (VArr [VObj [("clid", VInt 1); ("client_type", VStr "0")];
              VObj [("clid", VInt 2); ("client_type", VStr "1")]])
       [("client_type", VStr "0"); ("clid", VInt 2)]
     = Resolved (VArr [VObj [("clid", VInt 1); ("client_type", VStr "0")]]).
Proof.
  assert (Hrows : Forall (plain_field "client_type")
                    [VObj [("clid", VInt 1); ("client_type", VStr "0")];
                     VObj [("clid", VInt 2); ("client_type", VStr "1")]]).
  { repeat constructor; eexists; (split; [reflexivity | exact I]). }
  split; [exact Hrows |].
  exact (_filter_first_key (B := nan_builtins) _ "client_type" (VStr "0")
           [("clid", VInt 2)] Hrows).
Defined.

(** X16: a filter whose first key asks for a string keeps exactly the rows
    whose field is that very string, in their order; a row without the field
    is dropped. *)
Theorem _filter_by_string `{B : Builtins}
    (rows : list record) (k s : string) (others : record) :
  Forall (string_field k) rows ->
  _filter (VArr (VObj <$> rows)) ((k, VStr s) :: others)
  = Resolved (VArr (VObj <$> List.filter (field_is k s) rows)).
Proof.
  intros Hrows. unfold _filter. cbn [List.length Nat.eqb rows_of].
  assert (Hkept : filter_rows (VObj <$> rows) ((k, VStr s) :: others)
                  = Normal (VObj <$> List.filter (field_is k s) rows)).
  { induction Hrows as [| o rows Hfield _ IH]; [reflexivity |].
    cbn [fmap list_fmap filter_rows List.filter]. rewrite IH.
    cbn [fst filter_row has_field field]. unfold field_is, obj_has, string_field in *.
    cbn [obj_get]. rewrite String.eqb_refl.
    destruct (obj_get k o) as [ak |] eqn:Hk; [| reflexivity].
    cbn [mbind completion_bind negb default from_option id].
    destruct ak; try contradiction.
    cbn [filter_case is_array loose_equal_string mbind completion_bind].
    destruct (String.eqb s0 s); reflexivity. }
  now rewrite Hkept.
Qed.

Lemma _filter_by_string_witness :
  Forall (string_field "client_nickname")
    [[("clid", VInt 1); ("client_nickname", VStr "anna")];
     [("clid", VInt 2)];
     [("clid", VInt 3); ("client_nickname", VStr "bob")]]
  /\ _filter (B := nan_builtins)
       (VArr (VObj <$> [[("clid", VInt 1); ("client_nickname", VStr "anna")];
                        [("clid", VInt 2)];
                        [("clid", VInt 3); ("client_nickname", VStr "bob")]]))
       [("client_nickname", VStr "bob")]
     = Resolved (VArr [VObj [("clid", VInt 3); ("client_nickname", VStr "bob")]]).
Proof.
  assert (Hrows : Forall (string_field "client_nickname")
                    [[("clid", VInt 1); ("client_nickname", VStr "anna")];
                     [("clid", VInt 2)];
                     [("clid", VInt 3); ("client_nickname", VStr "bob")]]).
  { repeat constructor. }
  split; [exact Hrows |].
  exact (_filter_by_string (B := nan_builtins) _ "client_nickname" "bob" [] Hrows).
Defined.

(** X17: a filter whose first key asks for an array keeps exactly the object
    rows whose field is strictly equal to an element of the array, whatever
    the type of the field. *)
Theorem _filter_by_array `{B : Builtins}
    (rows : list record) (k : string) (vs : list value) (others : record) :
  _filter (VArr (VObj <$> rows)) ((k, VArr vs) :: others)
  = Resolved (VArr (VObj <$> List.filter (field_among k vs) rows)).
Proof.
  unfold _filter. cbn [List.length Nat.eqb rows_of].
  assert (Hkept : filter_rows (VObj <$> rows) ((k, VArr vs) :: others)
                  = Normal (VObj <$> List.filter (field_among k vs) rows)).
  { induction rows as [| o rows IH]; [reflexivity |].
    cbn [fmap list_fmap filter_rows List.filter]. rewrite IH.
    cbn [fst filter_row has_field field]. unfold field_among, obj_has.
    cbn [obj_get]. rewrite String.eqb_refl.
    destruct (obj_get k o) as [ak |] eqn:Hk; [| reflexivity].
    cbn [mbind completion_bind negb default from_option id filter_case is_array rows_of].
    destruct (existsb _ vs); reflexivity. }
  now rewrite Hkept.
Qed.

(** ** The cached lists *)

Lemma filter_rows_kept `{B : Builtins} (f : record) (rows kept : list value) :
  filter_rows rows f = Normal kept -> kept ⊆ rows.
Proof.
  revert kept. induction rows as [| a rows IH]; intros kept Hkept; cbn [filter_rows] in Hkept.
  - injection Hkept as <-. set_solver.
  - destruct (filter_row a f (f.*1)) as [keep | e]; [| discriminate].
    cbn [mbind completion_bind] in Hkept.
    destruct (filter_rows rows f) as [rest | e]; [| discriminate].
    cbn [mbind completion_bind] in Hkept. injection Hkept as <-.
    specialize (IH rest eq_refl). destruct keep; set_solver.
Qed.

Lemma _filter_kept `{B : Builtins} (f : record) (rows : list value) (v : value) :
  _filter (VArr rows) f = Resolved v -> exists kept, v = VArr kept /\ kept ⊆ rows.
Proof.
  unfold _filter. cbn [rows_of]. destruct (List.length f =? 0)%nat.
  - intros [= <-]. eauto.
  - destruct (filter_rows rows f) as [kept |] eqn:Hkept; [| discriminate].
    intros [= <-]. exists kept. split; [reflexivity |]. now apply filter_rows_kept in Hkept.
Qed.

Lemma mapM_get_prop (key : string) (rows : list value) :
  Forall readable rows ->
  mapM (fun r => get_prop r key) rows
  = Normal ((fun r => match get_prop r key with
                      | Normal id => id
                      | Throw _ => VUndefined
                      end) <$> rows).
Proof.
  induction 1 as [| l rows [Hu Hn] _ IH]; [reflexivity |].
  cbn [mapM fmap list_fmap]. cbn [mapM] in IH. rewrite IH.
  destruct l; try congruence; reflexivity.
Qed.

Lemma row_key_eq (key : string) (l : value) :
  toString match get_prop l key with
           | Normal id => id
           | Throw _ => VUndefined
           end
  = row_key key l \/ l = VUndefined \/ l = VNull.
Proof. unfold row_key. destruct l; auto. Qed.

(** The cache and the promise of the shared chain, for rows that can be
    read. *)
Lemma cached_list_result `{T : Transport} `{B : Builtins}
    (C : wrapper_class) (c : cache) (actuals : list value) (key : string)
    (filter : option record) (answer : value) :
  ts3_execute actuals = Resolved answer ->
  Forall readable (rows_of answer) ->
  let r := cached_list C c actuals key filter in
  dom (cache_entries r.1) = list_to_set (row_key key <$> rows_of answer)
  /\ (forall ws, r.2 = Resolved (VArr ws) ->
        Forall (fun w => exists l, l ∈ rows_of answer
                                   /\ cache_entries r.1 !! row_key key l = Some w) ws)
  /\ (filter = None \/ filter = Some [] ->
        exists ws, r.2 = Resolved (VArr ws)
                   /\ Forall2 (fun l w => cache_entries r.1 !! row_key key l = Some w)
                        (rows_of answer) ws).
Proof.
  intros Hanswer Hrows r. subst r. unfold cached_list. rewrite execute_eq, Hanswer.
  destruct (_handleCache_keys C c answer key Hrows) as (Hres & Hdom & _).
  set (handled := _handleCache C c answer key) in *.
  cbn [fst snd]. rewrite Hres. cbn [then_].
  assert (Hcached : forall l, l ∈ rows_of answer ->
            exists w, cache_entries handled.1 !! row_key key l = Some w).
  { intros l Hl. apply elem_of_dom. rewrite Hdom, elem_of_list_to_set.
    now apply list_elem_of_fmap_2. }
  assert (Hmap : forall kept, kept ⊆ rows_of answer ->
            exists ws,
              (ids ← mapM (fun r => get_prop r key) kept;
               Normal (Resolved
                         (VArr ((fun id => default VUndefined
                                             (cache_entries handled.1 !! toString id))
                                  <$> ids))))
              = Normal (Resolved (VArr ws))
              /\ Forall2 (fun l w => cache_entries handled.1 !! row_key key l = Some w)
                   kept ws).
  { intros kept Hkept.
    assert (Hreadable : Forall readable kept).
    { apply Forall_forall. intros l Hl. rewrite Forall_forall in Hrows. auto. }
    rewrite (mapM_get_prop key kept Hreadable). cbn [mbind completion_bind].
    eexists. split; [reflexivity |].
    rewrite <- list_fmap_compose.
    apply Forall2_fmap_r, Forall_Forall2_diag, Forall_forall. intros l Hl.
    destruct (Hcached l (Hkept l Hl)) as [w Hw]. cbn [compose].
    destruct (row_key_eq key l) as [-> | Hbad].
    - rewrite Hw. reflexivity.
    - rewrite Forall_forall in Hreadable. destruct (Hreadable l Hl) as [Hu Hn].
      destruct Hbad; contradiction. }
  split; [exact Hdom | split].
  - intros ws Hws.
    destruct (_filter (VArr (rows_of answer)) (default [] filter)) as [v | e |] eqn:Hf;
      try discriminate.
    apply _filter_kept in Hf as (kept & -> & Hkept). cbn [then_ rows_of] in Hws.
    destruct (Hmap kept Hkept) as (ws' & Heq & Hall). rewrite Heq in Hws.
    injection Hws as <-.
    clear Heq. induction Hall as [| l w kept ws' Hlw _ IH]; constructor.
    + exists l. split; [apply Hkept, list_elem_of_here | exact Hlw].
    + apply IH. intros l' Hl'. apply Hkept. now apply list_elem_of_further.
  - intros Hnone.
    assert (Hf : _filter (VArr (rows_of answer)) (default [] filter)
                 = Resolved (VArr (rows_of answer))).
    { destruct Hnone as [-> | ->]; reflexivity. }
    rewrite Hf. cbn [then_ rows_of].
    destruct (Hmap (rows_of answer)) as (ws & -> & Hall); [set_solver |].
    eauto.
Qed.

(** X18: when the transport answers a list command with rows that can be
    read, the cache of that list method holds afterwards exactly the ids of
    the rows answered, whatever the filter selects. *)
Theorem lists_refresh_caches `{T : Transport} `{B : Builtins} (P : property_classes)
    (this : instance) (filter : option record) :
  Forall (fun '(actuals, key, c, _) =>
            forall answer,
              ts3_execute actuals = Resolved answer ->
              Forall readable (rows_of answer) ->
              dom (cache_entries c) = list_to_set (row_key key <$> rows_of answer))
    (list_methods P this filter).
Proof.
  unfold list_methods.
  repeat (apply List.Forall_cons; [intros answer Hanswer Hrows |]);
    [.. | apply List.Forall_nil];
    eapply (cached_list_result _ _ _ _ filter answer Hanswer Hrows).
Qed.

Lemma lists_refresh_caches_witness :
  ts3_execute (Transport := two_rows_transport)
    [VStr "clientlist";
     VArr [VStr "-uid"; VStr "-away"; VStr "-voice"; VStr "-times";
           VStr "-groups"; VStr "-info"; VStr "-icon"; VStr "-country"]]
  = Resolved (VArr [VObj [("clid", VInt 2)]; VObj [("clid", VInt 3)]])
  /\ dom (cache_entries
            (_clients (clientList (T := two_rows_transport) (B := nan_builtins)
                         counting_classes filled_instance
                         (Some [("clid", VInt 9)])).1))
     = list_to_set ["2"; "3"].
Proof.
  split; [reflexivity |].
  pose proof (lists_refresh_caches (T := two_rows_transport) (B := nan_builtins)
                counting_classes filled_instance (Some [("clid", VInt 9)])) as Hall.
  do 4 apply Forall_cons in Hall as [_ Hall]. apply Forall_cons in Hall as [Hclients _].
  apply (Hclients _ eq_refl). repeat constructor; discriminate.
Defined.

(** X19: under the same condition, every element of the array a list method
    resolves with is the wrapper its cache holds for a row of the answer:
    never [undefined], never a wrapper of an id that was not answered. *)
Theorem lists_give_cached_wrappers `{T : Transport} `{B : Builtins}
    (P : property_classes) (this : instance) (filter : option record) :
  Forall (fun '(actuals, key, c, p) =>
            forall answer ws,
              ts3_execute actuals = Resolved answer ->
              Forall readable (rows_of answer) ->
              p = Resolved (VArr ws) ->
              Forall (fun w => exists l, l ∈ rows_of answer
                                         /\ cache_entries c !! row_key key l = Some w) ws)
    (list_methods P this filter).
Proof.
  unfold list_methods.
  repeat (apply List.Forall_cons; [intros answer ws Hanswer Hrows Hws |]);
    [.. | apply List.Forall_nil];
    eapply (cached_list_result _ _ _ _ filter answer Hanswer Hrows); exact Hws.
Qed.

(** X20: called without a filter, or with the empty one, a list method
    resolves with one wrapper for each row of the answer, in the order of the
    rows: the wrapper its cache holds for the id of the row. *)
Theorem unfiltered_lists_are_complete `{T : Transport} `{B : Builtins}
    (P : property_classes) (this : instance) (filter : option record) :
  filter = None \/ filter = Some [] ->
  Forall (fun '(actuals, key, c, p) =>
            forall answer,
              ts3_execute actuals = Resolved answer ->
              Forall readable (rows_of answer) ->
              exists ws, p = Resolved (VArr ws)
                         /\ Forall2 (fun l w => cache_entries c !! row_key key l = Some w)
                              (rows_of answer) ws)
    (list_methods P this filter).
Proof.
  intros Hfilter. unfold list_methods.
  repeat (apply List.Forall_cons; [intros answer Hanswer Hrows |]);
    [.. | apply List.Forall_nil];
    eapply (cached_list_result _ _ _ _ filter answer Hanswer Hrows); exact Hfilter.
Qed.

Lemma lists_give_cached_wrappers_witness :
  (clientList (T := two_rows_transport) (B := nan_builtins) counting_classes
     filled_instance (Some [("clid", VArr [VInt 3])])).2
  = Resolved (VArr [VObj [("data", VObj [("clid", VInt 3)]); ("updates", VInt 0)]])
  /\ Forall (fun w =>
              exists l, l ∈ [VObj [("clid", VInt 2)]; VObj [("clid", VInt 3)]]
                        /\ cache_entries
                             (_clients (clientList (T := two_rows_transport)
                                          (B := nan_builtins) counting_classes
                                          filled_instance
                                          (Some [("clid", VArr [VInt 3])])).1)
                           !! row_key "clid" l = Some w)
       [VObj [("data", VObj [("clid", VInt 3)]); ("updates", VInt 0)]].
Proof.
  assert (Hres : (clientList (T := two_rows_transport) (B := nan_builtins)
                    counting_classes filled_instance
                    (Some [("clid", VArr [VInt 3])])).2
                 = Resolved (VArr [VObj [("data", VObj [("clid", VInt 3)]);
                                         ("updates", VInt 0)]])).
  { vm_compute. reflexivity. }
  split; [exact Hres |].
  pose proof (lists_give_cached_wrappers (T := two_rows_transport) (B := nan_builtins)
                counting_classes filled_instance (Some [("clid", VArr [VInt 3])])) as Hall.
  do 4 apply Forall_cons in Hall as [_ Hall]. apply Forall_cons in Hall as [Hclients _].
  apply (Hclients _ _ eq_refl); [repeat constructor; discriminate | exact Hres].
Defined.

Lemma unfiltered_lists_are_complete_witness :
  (@None record = None \/ @None record = Some [])
  /\ exists ws,
      (clientList (T := two_rows_transport) (B := nan_builtins) counting_classes
         filled_instance None).2 = Resolved (VArr ws)
      /\ Forall2 (fun l w =>
                    cache_entries
                      (_clients (clientList (T := two_rows_transport) (B := nan_builtins)
                                   counting_classes filled_instance None).1)
                    !! row_key "clid" l = Some w)
           [VObj [("clid", VInt 2)]; VObj [("clid", VInt 3)]] ws.
Proof.
  assert (Hnone : @None record = None \/ @None record = Some []) by (now left).
  split; [exact Hnone |].
  pose proof (unfiltered_lists_are_complete (T := two_rows_transport) (B := nan_builtins)
                counting_classes filled_instance None Hnone) as Hall.
  do 4 apply Forall_cons in Hall as [_ Hall]. apply Forall_cons in Hall as [Hclients _].
  apply (Hclients _ eq_refl). repeat constructor; discriminate.
Defined.

(** ** Getters *)

Lemma nth_filter_find {A C : Type} (f : A -> bool) (h : A -> C) (d : C) (l : list A) :
  nth 0 (h <$> List.filter f l) d
  = match List.find f l with
    | Some x => h x
    | None => d
    end.
Proof.
  induction l as [| x l IH]; [reflexivity |].
  simpl. destruct (f x); [reflexivity | exact IH].
Qed.

Lemma cached_list_first_by_string `{T : Transport} `{B : Builtins}
    (C : wrapper_class) (c : cache) (actuals : list value) (key k s : string)
    (rows : list record) :
  ts3_execute actuals = Resolved (VArr (VObj <$> rows)) ->
  Forall (string_field k) rows ->
  let r := cached_list C c actuals key (Some [(k, VStr s)]) in
  match List.find (field_is k s) rows with
  | Some o => exists w, cache_entries r.1 !! row_key key (VObj o) = Some w
                        /\ first_of r.2 = Resolved w
  | None => first_of r.2 = Resolved VUndefined
  end.
Proof.
  intros Hanswer Hfields r. subst r.
  assert (Hrows : Forall readable (rows_of (VArr (VObj <$> rows)))).
  { cbn [rows_of]. apply Forall_fmap, Forall_forall. intros o _. split; discriminate. }
  destruct (cached_list_result C c actuals key (Some [(k, VStr s)]) _ Hanswer Hrows)
    as (Hdom & _ & _).
  unfold cached_list in *. rewrite execute_eq, Hanswer in *.
  destruct (_handleCache_keys C c (VArr (VObj <$> rows)) key Hrows) as (Hres & _ & _).
  set (handled := _handleCache C c (VArr (VObj <$> rows)) key) in *.
  cbn [fst snd] in *. rewrite Hres. cbn [then_ rows_of default from_option id].
  rewrite (_filter_by_string rows k s [] Hfields). cbn [then_ rows_of].
  rewrite mapM_get_prop
    by (apply Forall_fmap, Forall_forall; intros o _; split; discriminate).
  cbn [mbind completion_bind first_of].
  rewrite <- !list_fmap_compose, nth_filter_find.
  change (@List.find record (field_is k s) rows)
    with (@List.find (list (string * value)) (field_is k s) rows).
  destruct (@List.find (list (string * value)) (field_is k s) rows) as [o |] eqn:Hfind;
    [| reflexivity].
  apply find_some in Hfind as [Hin _].
  assert (Hcached : is_Some (cache_entries handled.1 !! row_key key (VObj o))).
  { apply elem_of_dom. rewrite Hdom, elem_of_list_to_set. cbn [rows_of].
    apply list_elem_of_fmap_2, list_elem_of_fmap_2, list_elem_of_In, Hin. }
  destruct Hcached as [w Hw]. exists w. split; [exact Hw |].
  cbn [compose]. unfold row_key in Hw. cbn [get_prop] in Hw |- *. now rewrite Hw.
Qed.

(** X21: when the transport answers "clientlist" with object rows whose
    unique identifiers and nicknames are strings, [getClientByUID] and
    [getClientByName] asked for a string resolve with the cached wrapper of
    the first row that carries exactly that string, and with [undefined],
    not a rejection, when no row does. *)
Theorem client_getters_by_string `{T : Transport} `{B : Builtins}
    (P : property_classes) (this : instance) (rows : list record) (s : string) :
  ts3_execute [VStr "clientlist";
               VArr [VStr "-uid"; VStr "-away"; VStr "-voice"; VStr "-times";
                     VStr "-groups"; VStr "-info"; VStr "-icon"; VStr "-country"]]
  = Resolved (VArr (VObj <$> rows)) ->
  Forall (string_field "client_unique_identifier") rows ->
  Forall (string_field "client_nickname") rows ->
  match List.find (field_is "client_unique_identifier" s) rows with
  | Some o =>
      exists w, cache_entries (_clients (getClientByUID P this (VStr s)).1)
                !! row_key "clid" (VObj o) = Some w
                /\ (getClientByUID P this (VStr s)).2 = Resolved w
  | None => (getClientByUID P this (VStr s)).2 = Resolved VUndefined
  end
  /\ match List.find (field_is "client_nickname" s) rows with
     | Some o =>
         exists w, cache_entries (_clients (getClientByName P this (VStr s)).1)
                   !! row_key "clid" (VObj o) = Some w
                   /\ (getClientByName P this (VStr s)).2 = Resolved w
     | None => (getClientByName P this (VStr s)).2 = Resolved VUndefined
     end.
Proof.
  intros Hanswer Huid Hname. split.
  - exact (cached_list_first_by_string (TeamSpeakClient P) (_clients this) _ "clid"
             "client_unique_identifier" s rows Hanswer Huid).
  - exact (cached_list_first_by_string (TeamSpeakClient P) (_clients this) _ "clid"
             "client_nickname" s rows Hanswer Hname).
Qed.

Lemma client_getters_by_string_witness :
  ts3_execute (Transport := named_rows_transport)
    [VStr "clientlist";
     VArr [VStr "-uid"; VStr "-away"; VStr "-voice"; VStr "-times";
           VStr "-groups"; VStr "-info"; VStr "-icon"; VStr "-country"]]
  = Resolved (VArr (VObj <$> named_rows))
  /\ (exists w,
        cache_entries
          (_clients (getClientByName (T := named_rows_transport) (B := nan_builtins)
                       counting_classes filled_instance (VStr "bob")).1) !! "3" = Some w
        /\ (getClientByName (T := named_rows_transport) (B := nan_builtins)
              counting_classes filled_instance (VStr "bob")).2 = Resolved w)
  /\ (getClientByUID (T := named_rows_transport) (B := nan_builtins)
        counting_classes filled_instance (VStr "uidC")).2 = Resolved VUndefined.
Proof.
  assert (Huid : Forall (string_field "client_unique_identifier") named_rows)
    by repeat constructor.
  assert (Hname : Forall (string_field "client_nickname") named_rows)
    by repeat constructor.
  split; [reflexivity |].
  split.
  - exact (proj2 (client_getters_by_string (T := named_rows_transport)
                    (B := nan_builtins) counting_classes filled_instance named_rows
                    "bob" eq_refl Huid Hname)).
  - exact (proj1 (client_getters_by_string (T := named_rows_transport)
                    (B := nan_builtins) counting_classes filled_instance named_rows
                    "uidC" eq_refl Huid Hname)).
Defined.

(** ** Edit events *)

Lemma obj_get_fold_set (g : string -> value) (k : string) (keys : list string) :
  forall m,
    obj_get k (fold_left (fun m k' => obj_set k' (g k') m) keys m)
    = if bool_decide (k ∈ keys) then Some (g k) else obj_get k m.
Proof.
  induction keys as [| k' keys IH]; intros m; [reflexivity |].
  cbn [fold_left]. rewrite IH, obj_get_set.
  destruct (decide (k ∈ keys)) as [Hin | Hnot].
  - rewrite (bool_decide_eq_true_2 (k ∈ keys)) by exact Hin.
    rewrite (bool_decide_eq_true_2 (k ∈ k' :: keys)) by (now apply list_elem_of_further).
    reflexivity.
  - rewrite (bool_decide_eq_false_2 (k ∈ keys)) by exact Hnot.
    destruct (String.eqb_spec k k') as [-> | Hne].
    + rewrite (bool_decide_eq_true_2 (k' ∈ k' :: keys)) by apply list_elem_of_here.
      reflexivity.
    + rewrite (bool_decide_eq_false_2 (k ∈ k' :: keys)); [reflexivity |].
      rewrite elem_of_cons. tauto.
Qed.

Lemma obj_get_None (k : string) (o : record) :
  k ∉ o.*1 -> obj_get k o = None.
Proof.
  induction o as [| [k' v] o IH]; [reflexivity |].
  cbn [fmap list_fmap fst obj_get]. rewrite not_elem_of_cons. intros [Hne Hnot].
  destruct (String.eqb_spec k k'); [contradiction | now apply IH].
Qed.

Lemma obj_get_Some (k : string) (o : record) :
  k ∈ o.*1 -> exists v, obj_get k o = Some v.
Proof.
  induction o as [| [k' v] o IH]; [intros H%elem_of_nil; contradiction |].
  cbn [fmap list_fmap fst obj_get]. rewrite elem_of_cons.
  destruct (String.eqb_spec k k'); [eauto |]. intros [Heq | Hin]; [contradiction | auto].
Qed.

Lemma modified_props_get (p k : string) (o : record) :
  obj_get k (modified_props p (VObj o))
  = if String.prefix p k then obj_get k o else None.
Proof.
  unfold modified_props.
  rewrite (obj_get_fold_set (fun k => default VUndefined (obj_get k o))).
  cbn [obj_get].
  destruct (decide (k ∈ List.filter (String.prefix p) o.*1)) as [Hin | Hnot].
  - rewrite bool_decide_eq_true_2 by exact Hin.
    apply list_elem_of_In, filter_In in Hin as [Hin%list_elem_of_In ->].
    destruct (obj_get_Some k o Hin) as [v ->]. reflexivity.
  - rewrite bool_decide_eq_false_2 by exact Hnot.
    destruct (String.prefix p k) eqn:Hp; [| reflexivity].
    symmetry. apply obj_get_None. intros Hin. apply Hnot.
    apply list_elem_of_In, filter_In. split; [now apply list_elem_of_In | exact Hp].
Qed.

(** X22: an event emitted by [_evserveredited], [_evchanneledited] or
    [_evchannelcreated] for an object row carries under [modified] exactly the
    properties of the row whose names begin with "virtualserver_" (for the
    server) or "channel_" (for a channel), with their values: no other
    property of the row, and none left out. *)
Theorem edit_events_modified `{T : Transport} `{B : Builtins}
    (P : property_classes) (this : instance) (o : record) :
  Forall (fun '(handled, prefix) =>
            forall this' evs ev, handled = Normal (this', evs) -> ev ∈ evs ->
              (exists e, ev = EmitError e)
              \/ exists m, modified_of ev = Some m
                           /\ forall k, obj_get k m
                                        = if String.prefix prefix k
                                          then obj_get k o else None)
    [ (_evserveredited P this (VObj o), "virtualserver_");
      (_evchanneledited P this (VObj o), "channel_");
      (_evchannelcreated P this (VObj o), "channel_") ].
Proof.
  assert (Hchannel : forall event this' evs ev,
             channel_event P event this (VObj o) = Normal (this', evs) -> ev ∈ evs ->
             (exists e, ev = EmitError e)
             \/ exists m, modified_of ev = Some m
                          /\ forall k, obj_get k m
                                       = if String.prefix "channel_" k
                                         then obj_get k o else None).
  { intros event this' evs ev Hrun Hev. unfold channel_event in Hrun.
    change (get_prop (VObj o) "invokerid")
      with (Normal (default VUndefined (obj_get "invokerid" o))) in Hrun.
    change (get_prop (VObj o) "cid")
      with (Normal (default VUndefined (obj_get "cid" o))) in Hrun.
    unfold mbind, mret, completion_bind, completion_ret in Hrun.
    cbv beta iota zeta in Hrun.
    set (all := promise_all _) in Hrun.
    pose proof (modified_props_get "channel_") as Hmodified.
    set (modified := modified_props "channel_" (VObj o)) in *.
    injection Hrun as _ <-.
    destruct all as [[| | | | | [| res0 [| res1 [| ? ?]]] | | |] | e |];
      try (now apply elem_of_nil in Hev);
      apply list_elem_of_singleton in Hev as ->; [| eauto].
    right. exists modified. split; [reflexivity |]. intros k. apply Hmodified. }
  repeat (apply List.Forall_cons; [| try apply List.Forall_nil]);
    [| intros; eapply Hchannel; eassumption ..].
  intros this' evs ev Hrun Hev. unfold _evserveredited in Hrun.
  change (get_prop (VObj o) "invokerid")
    with (Normal (default VUndefined (obj_get "invokerid" o))) in Hrun.
  unfold mbind, mret, completion_bind, completion_ret in Hrun.
  cbv beta iota zeta in Hrun.
  set (found := (getClientByID P this _).2) in Hrun.
  pose proof (modified_props_get "virtualserver_") as Hmodified.
  set (modified := modified_props "virtualserver_" (VObj o)) in *.
  injection Hrun as _ <-.
  destruct found as [client | e |];
    try (now apply elem_of_nil in Hev);
    apply list_elem_of_singleton in Hev as ->; [| eauto].
  right. exists modified. split; [reflexivity |]. intros k. apply Hmodified.
Qed.

Lemma edit_events_modified_witness :
  exists this' ev,
    _evserveredited (T := named_rows_transport) (B := nan_builtins) counting_classes
      filled_instance
      (VObj [("invokerid", VInt 2); ("virtualserver_name", VStr "x"); ("reasonid", VInt 10)])
    = Normal (this', [ev])
    /\ exists m, modified_of ev = Some m
                 /\ forall k, obj_get k m
                              = if String.prefix "virtualserver_" k
                                then obj_get k [("invokerid", VInt 2);
                                                ("virtualserver_name", VStr "x");
                                                ("reasonid", VInt 10)]
                                else None.
Proof.
  destruct (_evserveredited (T := named_rows_transport) (B := nan_builtins)
              counting_classes filled_instance
              (VObj [("invokerid", VInt 2); ("virtualserver_name", VStr "x");
                     ("reasonid", VInt 10)]))
    as [[this' evs] | e] eqn:Hrun; [| discriminate Hrun].
  assert (Hevs : evs = [Emit "serveredit"
                          (VObj [("invoker", VUndefined);
                                 ("modified", VObj [("virtualserver_name", VStr "x")])])]).
  { vm_compute in Hrun. now injection Hrun as _ <-. }
  subst evs. exists this'. eexists. split; [reflexivity |].
  pose proof (edit_events_modified (T := named_rows_transport) (B := nan_builtins)
                counting_classes filled_instance
                [("invokerid", VInt 2); ("virtualserver_name", VStr "x");
                 ("reasonid", VInt 10)]) as Hall.
  apply Forall_cons in Hall as [Hserver _].
  destruct (Hserver _ _ _ Hrun (list_elem_of_here _ _)) as [[e He] | Hm];
    [discriminate He | exact Hm].
Defined.
